(** * check-docs-links: the markdown link validator, embedded and verified

    The script [scripts/check-docs-links.py] walks the tree under the current
    directory, extracts inline links from every markdown document with one
    regular expression, classifies every target and reports the local targets
    that do not exist.

    Layout of this development:
    - [PyStr]      Python [str] values as sequences of code points, with the
                   few methods the script calls ([startswith], [split], [strip]);
    - [Regex]      the pattern [link_re], a backtracking matcher for it and
                   [findall];
    - [Discovery]  the directory walk behind [Path.rglob];
    - [Script]     the body of the script over an abstract file system that
                   may raise, and the notions its properties are stated with;
    - [Spec]       the classification rule as the specification words it;
    - [Demo]       a small concrete file system to run the script on;
    - lemmas on each part, and the properties C1 to C10 of the script. *)

From Stdlib Require Import Ascii String.
From Stdlib Require Import List NArith Bool Lia Arith.
From Stdlib Require Import Permutation.
Import ListNotations.
Open Scope string_scope.
Open Scope list_scope.

Set Implicit Arguments.
Set Warnings "-register-all,-notation-for-abbreviation".

(* ================================================================== *)
(** ** Python strings *)
(* ================================================================== *)

Module PyStr.

(** A Python [str] is a sequence of Unicode code points. *)
Definition char := N.
Definition str := list char.

(** String literals of the script (all of them ASCII). *)
Definition lit (s : string) : str := map N_of_ascii (list_ascii_of_string s).

Definition ch (a : ascii) : char := N_of_ascii a.

(** The line terminator [print] writes. *)
Definition newline : str := [10%N].

(** [s.startswith(prefix)] *)
Fixpoint startswith (prefix s : str) : bool :=
  match prefix, s with
  | [], _ => true
  | _ :: _, [] => false
  | p :: prefix', c :: s' => N.eqb p c && startswith prefix' s'
  end.

(** [s.startswith((p1, p2, ...))]: true when some member of the tuple is a prefix. *)
Definition startswith_any (prefixes : list str) (s : str) : bool :=
  existsb (fun p => startswith p s) prefixes.

(** [s.endswith(suffix)] *)
Definition endswith (suffix s : str) : bool :=
  startswith (rev suffix) (rev s).

(** [s.split(sep, 1)[0]] for a one-character separator: the text before the
    first occurrence of [sep], the whole string when there is none. *)
Fixpoint split1_head (sep : char) (s : str) : str :=
  match s with
  | [] => []
  | c :: s' => if N.eqb c sep then [] else c :: split1_head sep s'
  end.

(** [str.isspace] on one code point: the characters CPython's [str.strip()]
    removes (bidirectional type WS, B or S, or category Zs). *)
Definition isspace (c : char) : bool :=
  ((9 <=? c) && (c <=? 13) || (28 <=? c) && (c <=? 32)
   || (c =? 133) || (c =? 160) || (c =? 5760)
   || (8192 <=? c) && (c <=? 8202)
   || (c =? 8232) || (c =? 8233) || (c =? 8239) || (c =? 8287)
   || (c =? 12288))%N.

(** [s.lstrip()] *)
Fixpoint lstrip (s : str) : str :=
  match s with
  | [] => []
  | c :: s' => if isspace c then lstrip s' else s
  end.

(** [s.rstrip()] *)
Definition rstrip (s : str) : str := rev (lstrip (rev s)).

(** [s.strip()] *)
Definition strip (s : str) : str := rstrip (lstrip s).

(** Truth value of a string: [not s] is true exactly for the empty string. *)
Definition truthy (s : str) : bool :=
  match s with [] => false | _ :: _ => true end.



(** [c.lower()] on the letters of the script's literals. *)
Definition lower (c : char) : char :=
  if ((65 <=? c) && (c <=? 90))%N then (c + 32)%N else c.

(** [variant] is [p] up to the case of its letters, and is not [p]. *)
Definition case_variant (variant p : str) : Prop :=
  map lower variant = p /\ variant <> p.

Definition str_eqb (a b : str) : bool :=
  if list_eq_dec N.eq_dec a b then true else false.

(** [sep.join(parts)] *)
Fixpoint join (sep : str) (parts : list str) : str :=
  match parts with
  | [] => []
  | [p] => p
  | p :: rest => p ++ sep ++ join sep rest
  end.

End PyStr.
Import PyStr.

(* ================================================================== *)
(** ** The link pattern and [findall] *)
(* ================================================================== *)

Module Regex.

(** Character classes of the pattern: an escaped literal such as [\[], and a
    negated one-character set such as [[^\]]]. *)
Inductive cls :=
| Only (c : char)
| Except (c : char).

Definition cls_mem (k : cls) (c : char) : bool :=
  match k with
  | Only x => N.eqb c x
  | Except x => negb (N.eqb c x)
  end.

(** The pieces a pattern is a sequence of: one character of a class, a greedy
    [*] or [+] over a class, and the two ends of the capturing group. *)
Inductive atom :=
| One (k : cls)
| Star (k : cls)
| Plus (k : cls)
| GroupOpen
| GroupClose.

(** [re.compile(r'\[[^\]]*\]\(([^)]+)\)')] *)
Definition link_re : list atom :=
  [ One (Only (ch "["));
    Star (Except (ch "]"));
    One (Only (ch "]"));
    One (Only (ch "("));
    GroupOpen;
    Plus (Except (ch ")"));
    GroupClose;
    One (Only (ch ")")) ].

(** Greedy repetition with backtracking: take one more character of the class
    when possible and try the rest of the pattern from there; when that fails,
    give the character back and try the rest of the pattern here. *)
Fixpoint greedy (A : Type) (k : cls) (cont : str -> option A) (s : str) : option A :=
  match s with
  | [] => cont []
  | c :: s' =>
      if cls_mem k c then
        match greedy k cont s' with
        | Some r => Some r
        | None => cont s
        end
      else cont s
  end.

(** Backtracking match of a pattern at the start of [s].  [opened] is the
    input as it was when the group opened and [grp] the text captured when it
    closed.  The result is the captured group and the input left after the
    match. *)
Fixpoint exec (p : list atom) (opened grp s : str) : option (str * str) :=
  match p with
  | [] => Some (grp, s)
  | One k :: p' =>
      match s with
      | c :: s' => if cls_mem k c then exec p' opened grp s' else None
      | [] => None
      end
  | Star k :: p' => greedy k (exec p' opened grp) s
  | Plus k :: p' =>
      match s with
      | c :: s' => if cls_mem k c then greedy k (exec p' opened grp) s' else None
      | [] => None
      end
  | GroupOpen :: p' => exec p' s grp s
  | GroupClose :: p' =>
      exec p' opened (firstn (length opened - length s) opened) s
  end.

(** One attempt of the pattern at the current position. *)
Definition match_at (p : list atom) (s : str) : option (str * str) :=
  exec p [] [] s.

(** The scan of [pattern.findall(text)] for a pattern with one group: attempt
    a match at the current position; on success record the group and resume
    where the match ended, otherwise move one character on.  [skip] counts the
    characters of the last match that are still to be passed over. *)
Fixpoint findall_from (p : list atom) (skip : nat) (s : str) : list str :=
  match s with
  | [] => []
  | _ :: s' =>
      match skip with
      | S k => findall_from p k s'
      | O =>
          match match_at p s with
          | Some (g, rest) => g :: findall_from p (length s' - length rest) s'
          | None => findall_from p 0 s'
          end
      end
  end.

Definition findall (p : list atom) (text : str) : list str :=
  findall_from p 0 text.

(** The same match written without backtracking: the label is the longest run
    of characters other than a closing bracket, the target the longest run of
    characters other than a closing parenthesis.  *)
Fixpoint span (f : char -> bool) (s : str) : str * str :=
  match s with
  | [] => ([], [])
  | c :: s' => if f c then let (a, b) := span f s' in (c :: a, b) else ([], s)
  end.

Definition link_at (s : str) : option (str * str) :=
  match s with
  | c :: s1 =>
      if N.eqb c (ch "[") then
        match snd (span (cls_mem (Except (ch "]"))) s1) with
        | c2 :: c3 :: s3 =>
            if N.eqb c2 (ch "]") && N.eqb c3 (ch "(") then
              match span (cls_mem (Except (ch ")"))) s3 with
              | ((_ :: _) as target, c4 :: s5) =>
                  if N.eqb c4 (ch ")") then Some (target, s5) else None
              | _ => None
              end
            else None
        | _ => None
        end
      else None
  | [] => None
  end.

End Regex.
Import Regex.

(* ================================================================== *)
(** ** Discovery: the walk behind [root.rglob('*.md')] *)
(* ================================================================== *)

Module Discovery.

(** The script leaves discovery to [pathlib]; this is the walk CPython's
    [rglob] makes for a pattern of one component, which sorts nothing.

    What the walk sees of the tree under the root: every directory with its
    entries in the order the operating system lists them.  A symbolic link is
    listed like a file, since the walk does not descend into it. *)
Inductive entry :=
| File (name : str)
| Dir (name : str) (children : list entry).

Definition entry_name (e : entry) : str :=
  match e with File n => n | Dir n _ => n end.

(** The last component of the pattern, [*.md], against one entry name. *)
Definition fnmatch_md (name : str) : bool := endswith (lit ".md") name.

(** The entries of one directory whose names match, in listing order.  A path
    is kept as its components below the root. *)
Definition select (prefix : list str) (entries : list entry) : list (list str) :=
  map (fun e => prefix ++ [entry_name e])
      (filter (fun e => fnmatch_md (entry_name e)) entries).

(** The recursive part of the pattern: a directory contributes its own matching
    entries, then what each of its sub-directories contributes, in listing
    order. *)
Fixpoint walk (prefix : list str) (e : entry) : list (list str) :=
  match e with
  | File _ => []
  | Dir n children =>
      select (prefix ++ [n]) children ++ flat_map (walk (prefix ++ [n])) children
  end.

(** [list(root.rglob('*.md'))] for the listing [root] of the root directory. *)
Definition rglob_md (root : list entry) : list (list str) :=
  select [] root ++ flat_map (walk []) root.

(** [str(path)] of a path below the root. *)
Definition path_text (parts : list str) : str := join (lit "/") parts.



End Discovery.
Import Discovery.

(* ================================================================== *)
(** ** The script *)
(* ================================================================== *)

Module Script.

(** A call either returns or raises; the script has no [try], so whatever is
    raised leaves every enclosing loop. *)
Inductive result (E A : Type) :=
| Ok (a : A)
| Raise (e : E).
Arguments Ok {E A} a.
Arguments Raise {E A} e.

Definition bind {E A B} (c : result E A) (k : A -> result E B) : result E B :=
  match c with
  | Ok a => k a
  | Raise e => Raise e
  end.

Notation "x <- c ;; k" := (bind c (fun x => k))
  (at level 61, c at next level, right associativity).

(** How a run ends: the text written to standard output with the exit status,
    or an exception nothing caught. *)
Inductive outcome (E : Type) :=
| Exit (stdout : str) (status : N)
| Uncaught (e : E).
Arguments Exit {E} stdout status.
Arguments Uncaught {E} e.

(** The status the interpreter hands to the caller: an uncaught exception
    prints its traceback on standard error and ends the process with 1. *)
Definition process_status {E} (o : outcome E) : N :=
  match o with
  | Exit _ status => status
  | Uncaught _ => 1%N
  end.

(** The tuple of line 13. *)
Definition schemes : list str := [lit "http://"; lit "https://"; lit "mailto:"].

(** [print(x)]: the text of [x] and a newline. *)
Definition print (out x : str) : str := out ++ x ++ newline.

Section Run.

(** The file system as the script meets it through [pathlib]: the type of
    path objects and the operations the script calls on them.  The three that
    touch the file system may raise. *)
Variable Path : Type.
Variable E : Type.
(** [str(p)], as the f-string of the report formats it *)
Variable path_str : Path -> str.
(** [p.parent] *)
Variable parent : Path -> Path.
(** [p / s] *)
Variable joinpath : Path -> str -> Path.
(** [p.read_text(encoding='utf-8')] *)
Variable read_text : Path -> result E str.
(** [p.resolve()] *)
Variable resolve : Path -> result E Path.
(** [p.exists()] *)
Variable path_exists : Path -> result E bool.
(** the path object [rglob] makes of an entry found below the root *)
Variable relpath : list str -> Path.

(** The list [missing] of [(md, link)] pairs. *)
Definition report := list (Path * str).

(** The body of the inner loop, lines 13 to 24, for one [link]; [continue]
    leaves [missing] as it is. *)
Definition check_link (md : Path) (missing : report) (link : str)
  : result E report :=
  if startswith_any schemes link then Ok missing
  else if startswith (lit "#") link then Ok missing
  else
    let link_path := strip (split1_head (ch "#") link) in
    if negb (truthy link_path) then Ok missing
    else if startswith (lit "data:") link_path then Ok missing
    else
      target <- resolve (joinpath (parent md) link_path) ;;
      found <- path_exists target ;;
      if negb found then Ok (missing ++ [(md, link)]) else Ok missing.

(** [for link in link_re.findall(text)] *)
Fixpoint scan_links (md : Path) (links : list str) (missing : report)
  : result E report :=
  match links with
  | [] => Ok missing
  | link :: rest =>
      missing' <- check_link md missing link ;;
      scan_links md rest missing'
  end.

(** [for md in md_files], lines 10 to 24 *)
Fixpoint scan_files (md_files : list Path) (missing : report)
  : result E report :=
  match md_files with
  | [] => Ok missing
  | md :: rest =>
      text <- read_text md ;;
      missing' <- scan_links md (findall link_re text) missing ;;
      scan_files rest missing'
  end.

(** The text of one report line: [f'- {md}: {link}'] *)
Definition report_line (entry : Path * str) : str :=
  lit "- " ++ path_str (fst entry) ++ lit ": " ++ snd entry.

(** Lines 26 to 32: the report and [sys.exit(1)], or the confirmation and the
    end of the script. *)
Definition conclude (missing : report) : outcome E :=
  match missing with
  | _ :: _ =>
      Exit (fold_left (fun out entry => print out (report_line entry))
              missing (print [] (lit "Missing links:")))
           1%N
  | [] => Exit (print [] (lit "All local markdown links resolve.")) 0%N
  end.

(** The script from line 9 on, given [md_files]. *)
Definition main (md_files : list Path) : outcome E :=
  match scan_files md_files [] with
  | Ok missing => conclude missing
  | Raise e => Uncaught e
  end.

(** The whole script on a tree whose root directory lists [root]. *)
Definition script (root : list entry) : outcome E :=
  main (map relpath (rglob_md root)).

End Run.

(** *** Notions the properties are stated with *)

(** The prefixes the script passes over: the schemes, a bare fragment and
    [data:]. *)
Definition skip_prefixes : list str := schemes ++ [lit "#"; lit "data:"].

(** The decision of lines 13 to 21 on its own: [None] for a link the loop
    passes over with [continue], otherwise the [link_path] the loop goes on to
    look up. *)
Definition classify (link : str) : option str :=
  if startswith_any schemes link then None
  else if startswith (lit "#") link then None
  else
    let link_path := strip (split1_head (ch "#") link) in
    if negb (truthy link_path) then None
    else if startswith (lit "data:") link_path then None
    else Some link_path.

Section Report.

Variables (Path E : Type).
Variable path_str : Path -> str.
Variable parent : Path -> Path.
Variable joinpath : Path -> str -> Path.
Variable read_text : Path -> result E str.
Variable resolve : Path -> result E Path.
Variable path_exists : Path -> result E bool.

(** Whether [link] of [md] is a missing local link: it is looked up, every
    call returns, and the last one returns [False]. *)
Definition reported (md : Path) (link : str) : bool :=
  match classify link with
  | None => false
  | Some link_path =>
      match resolve (joinpath (parent md) link_path) with
      | Ok target =>
          match path_exists target with
          | Ok false => true
          | _ => false
          end
      | Raise _ => false
      end
  end.

(** The missing links of one document, when it can be read. *)
Definition doc_missing (md : Path) : list (Path * str) :=
  match read_text md with
  | Ok text => map (pair md) (filter (reported md) (findall link_re text))
  | Raise _ => []
  end.

(** Every missing link of every document, in order. *)
Definition all_missing (md_files : list Path) : list (Path * str) :=
  flat_map doc_missing md_files.

(** The text of a report of [missing]: the header line, then a line for each
    entry. *)
Definition report_text (missing : list (Path * str)) : str :=
  lit "Missing links:" ++ newline
  ++ concat (map (fun entry => report_line path_str entry ++ newline) missing).

End Report.

(** Entries of a report can be compared when paths can. *)
Definition entry_eq_dec (Path : Type)
           (Path_eq_dec : forall a b : Path, {a = b} + {a <> b})
           (a b : Path * str) : {a = b} + {a <> b}.
Proof.
  decide equality; first [apply Path_eq_dec | apply (list_eq_dec N.eq_dec)].
Defined.

End Script.
Import Script.

(* ================================================================== *)
(** ** The classification as the specification words it *)
(* ================================================================== *)

Module Spec.

(** The specification's rule, word for word: trim the target, split off what
    follows the first [#] to get the path portion, and skip when the trimmed
    target starts with an external scheme or with [#], or the path portion is
    empty or starts with [data:]. *)
Definition spec_skipped (target : str) : bool :=
  let trimmed := strip target in
  let path_portion := split1_head (ch "#") trimmed in
  startswith_any schemes trimmed
  || startswith (lit "#") trimmed
  || negb (truthy path_portion)
  || startswith (lit "data:") path_portion.

End Spec.
Import Spec.

(* ================================================================== *)
(** ** A small concrete file system *)
(* ================================================================== *)

Module Demo.

(** Enough of [pathlib] to run the script on a tree: a path is a list of
    components, below the current directory or (when [anchored]) below the
    file-system root.  The script is run with the file-system root as its
    working directory, so both kinds of path name the entries of the same
    tree and [..] at the top stays at the top.  The tree has no symbolic
    links and its names are short, so of the calls only [read_text] can
    raise. *)
Record Path := { anchored : bool; parts : list str }.

Inductive error :=
| FileNotFoundError
| PermissionError
| UnicodeDecodeError.

Definition path_eq_dec (a b : Path) : {a = b} + {a <> b}.
Proof.
  decide equality;
    first [apply Bool.bool_dec | apply (list_eq_dec (list_eq_dec N.eq_dec))].
Defined.

Definition path_eqb (a b : Path) : bool :=
  if path_eq_dec a b then true else false.

(** The path object of an entry found below the root. *)
Definition relpath (components : list str) : Path :=
  {| anchored := false; parts := components |}.

(** [str(p)] *)
Definition path_str (p : Path) : str :=
  match anchored p, parts p with
  | false, [] => lit "."
  | false, _ :: _ => path_text (parts p)
  | true, _ => lit "/" ++ path_text (parts p)
  end.

(** [p.parent] *)
Definition parent (p : Path) : Path :=
  {| anchored := anchored p; parts := removelast (parts p) |}.

(** [s.split(sep)] *)
Fixpoint split_on (sep : char) (s : str) : list str :=
  match s with
  | [] => [[]]
  | c :: s' =>
      if N.eqb c sep then [] :: split_on sep s'
      else match split_on sep s' with
           | [] => [[c]]
           | h :: t => (c :: h) :: t
           end
  end.

(** The components of a path text: empty ones and [.] are dropped. *)
Definition components (s : str) : list str :=
  filter (fun c => negb (str_eqb c [] || str_eqb c (lit ".")))
         (split_on (ch "/") s).

(** [p / s]: a text that starts with a slash replaces [p]. *)
Definition joinpath (p : Path) (s : str) : Path :=
  if startswith (lit "/") s
  then {| anchored := true; parts := components s |}
  else {| anchored := anchored p; parts := parts p ++ components s |}.

(** [p.resolve()]: each [..] takes the component before it away. *)
Definition resolve (p : Path) : result error Path :=
  Ok {| anchored := anchored p;
        parts := fold_left (fun acc c =>
                              if str_eqb c (lit "..") then removelast acc
                              else acc ++ [c])
                           (parts p) [] |}.

(** Whether [components] names an entry of the tree. *)
Fixpoint entry_exists (entries : list entry) (components : list str) : bool :=
  match components with
  | [] => true
  | n :: rest =>
      existsb (fun e =>
                 str_eqb (entry_name e) n
                 && match rest with
                    | [] => true
                    | _ :: _ =>
                        match e with
                        | File _ => false
                        | Dir _ children => entry_exists children rest
                        end
                    end)
              entries
  end.

(** [p.exists()] *)
Definition path_exists (root : list entry) (p : Path) : result error bool :=
  Ok (entry_exists root (parts p)).

(** [p.read_text(encoding='utf-8')], from what reading each document gives. *)
Fixpoint read_text (contents : list (Path * result error str)) (p : Path)
  : result error str :=
  match contents with
  | [] => Raise FileNotFoundError
  | (q, r) :: rest => if path_eqb p q then r else read_text rest p
  end.

(** A run of the script on the tree [root] whose documents read as [contents]. *)
Definition run (root : list entry) (contents : list (Path * result error str))
  : outcome error :=
  script path_str parent joinpath (read_text contents) resolve
         (path_exists root) relpath root.

(** The documents the run finds. *)
Definition md_files (root : list entry) : list Path :=
  map relpath (rglob_md root).

(** The scan of the run. *)
Definition scan (root : list entry) (contents : list (Path * result error str))
  : result error (list (Path * str)) :=
  scan_files parent joinpath (read_text contents) resolve (path_exists root)
             (md_files root) [].

(** The tree of the examples: [docs/] lists [b.md] before [a.md]. *)
Definition docs_tree : list entry :=
  [Dir (lit "docs") [File (lit "b.md"); File (lit "a.md")]].

Definition a_md : Path := relpath [lit "docs"; lit "a.md"].
Definition b_md : Path := relpath [lit "docs"; lit "b.md"].

(** [docs/a.md] links to its neighbour [b.md], to a file that is not there
    (twice), to an image that is not there and to a web page. *)
Definition a_text : str :=
  lit "[x](./b.md) [y](missing.md) ![i](img.png) [w](https://example.com/gone) [e]() [z](missing.md)".

Definition docs_contents : list (Path * result error str) :=
  [ (a_md, Ok a_text); (b_md, Ok (lit "# B")) ].

(** What the scan of [docs_contents] collects. *)
Definition docs_missing : list (Path * str) :=
  [ (a_md, lit "missing.md"); (a_md, lit "img.png"); (a_md, lit "missing.md") ].

(** The same tree with all links in place. *)
Definition clean_contents : list (Path * result error str) :=
  [ (a_md, Ok (lit "[x](b.md#top) [u](../docs/b.md) [w](https://example.com/gone)"));
    (b_md, Ok (lit "# B")) ].

(** The same tree where [b.md] is not valid UTF-8. *)
Definition broken_contents : list (Path * result error str) :=
  [ (a_md, Ok (lit "[y](missing.md)"));
    (b_md, Raise UnicodeDecodeError) ].

(** A document whose links are all of the kinds the script passes over, on a
    file system where every look-up raises. *)
Definition external_contents : list (Path * result error str) :=
  [ (a_md, Ok (lit "[w](https://example.com/gone) [f](#top) [d](data:text/plain,hi) [m](mailto:a@example.com)"));
    (b_md, Ok (lit "# B")) ].

Definition resolve_raises (p : Path) : result error Path := Raise PermissionError.

Definition exists_raises (p : Path) : result error bool := Raise PermissionError.

(** A document with an image. *)
Definition image_contents : list (Path * result error str) :=
  [ (a_md, Ok (lit "Our logo: ![logo](logo.png) and text"));
    (b_md, Ok (lit "# B")) ].



(** The scenarios of the specification: [docs/a.md] alone holds one link. *)
Definition scenario (link_text : str) : outcome error :=
  run docs_tree [ (a_md, Ok link_text); (b_md, Ok []) ].

End Demo.

(* ================================================================== *)
(** ** Trees as directories have them, and more sample data *)
(* ================================================================== *)

Module Tree.

(** Below [e], no directory lists a name twice. *)
Fixpoint distinct_names (e : entry) : Prop :=
  match e with
  | File _ => True
  | Dir _ children =>
      NoDup (map entry_name children)
      /\ (fix all (l : list entry) : Prop :=
            match l with
            | [] => True
            | c :: l' => distinct_names c /\ all l'
            end) children
  end.

(** The same for the listing of the root directory. *)
Definition distinct_listing (entries : list entry) : Prop :=
  NoDup (map entry_name entries) /\ Forall distinct_names entries.

(** A tree with documents at three depths and a file that is no document. *)
Definition nested_tree : list entry :=
  [ Dir (lit "docs")
        [ File (lit "a.md");
          Dir (lit "api") [File (lit "x.md"); File (lit "x.txt")] ];
    File (lit "README.md") ].

End Tree.
Import Tree.

(* ================================================================== *)
(** ** Which calls of a run return *)
(* ================================================================== *)

Module Returns.

Section Returns.

Variables (Path E : Type).
Variable parent : Path -> Path.
Variable joinpath : Path -> str -> Path.
Variable read_text : Path -> result E str.
Variable resolve : Path -> result E Path.
Variable path_exists : Path -> result E bool.

(** The calls the loop body makes for [link] return: none for a link that is
    passed over, otherwise [resolve] and then [exists]. *)
Definition link_returns (md : Path) (link : str) : bool :=
  match classify link with
  | None => true
  | Some link_path =>
      match resolve (joinpath (parent md) link_path) with
      | Ok target =>
          match path_exists target with
          | Ok _ => true
          | Raise _ => false
          end
      | Raise _ => false
      end
  end.

(** The document can be read and the calls for each of its links return. *)
Definition doc_returns (md : Path) : bool :=
  match read_text md with
  | Ok text => forallb (link_returns md) (findall link_re text)
  | Raise _ => false
  end.

End Returns.

End Returns.
Import Returns.

(* ================================================================== *)
(** ** Facts about Python strings *)
(* ================================================================== *)

Section StrFacts.

Lemma startswith_app (p rest : str) : startswith p (p ++ rest) = true.
  Proof.
    induction p as [|c p IH]; simpl; [reflexivity|].
    now rewrite N.eqb_refl, IH.
  Qed.

Lemma startswith_inv (p s : str) :
    startswith p s = true -> exists rest, s = p ++ rest.
  Proof.
    revert s; induction p as [|c p IH]; intros s H; simpl in *.
    - now exists s.
    - destruct s as [|d s]; [discriminate|].
      apply andb_true_iff in H as [Hc Hp].
      apply N.eqb_eq in Hc; subst d.
      destruct (IH _ Hp) as [rest ->]. now exists rest.
  Qed.

  (** A prefix test only looks at the first [length p] characters. *)
Lemma startswith_same_length (p q rest : str) :
    length p = length q -> startswith p (q ++ rest) = true -> q = p.
  Proof.
    revert q; induction p as [|c p IH]; intros [|d q] Hlen H; simpl in *;
      try discriminate; [reflexivity|].
    apply andb_true_iff in H as [Hc Hp].
    apply N.eqb_eq in Hc; subst d.
    f_equal. apply IH; [lia|assumption].
  Qed.

Lemma startswith_map (f : char -> char) (p s : str) :
    startswith p s = true -> startswith (map f p) (map f s) = true.
  Proof.
    intros H. apply startswith_inv in H as [rest ->].
    rewrite map_app. apply startswith_app.
  Qed.

Lemma lstrip_app (u v : str) (c : char) :
    isspace c = false -> lstrip (u ++ c :: v) = lstrip u ++ c :: v.
  Proof.
    intros Hc. induction u as [|d u IH]; simpl.
    - now rewrite Hc.
    - destruct (isspace d); [assumption|reflexivity].
  Qed.

Lemma rstrip_app (u v : str) (c : char) :
    isspace c = false -> rstrip (u ++ c :: v) = u ++ c :: rstrip v.
  Proof.
    intros Hc. unfold rstrip.
    rewrite rev_app_distr. simpl. rewrite <- app_assoc. simpl.
    rewrite lstrip_app by assumption.
    rewrite rev_app_distr. simpl. rewrite rev_involutive.
    now rewrite <- app_assoc.
  Qed.

Lemma lstrip_head (c : char) (s : str) :
    isspace c = false -> lstrip (c :: s) = c :: s.
  Proof. intros H; simpl; now rewrite H. Qed.

  (** Stripping leaves a text alone from its first to its last character when
      neither is white space. *)
Lemma strip_framed (c d : char) (u v : str) :
    isspace c = false -> isspace d = false ->
    strip (c :: u ++ d :: v) = c :: u ++ d :: rstrip v.
  Proof.
    intros Hc Hd. unfold strip.
    rewrite lstrip_head by assumption.
    change (c :: u ++ d :: v) with ((c :: u) ++ d :: v).
    now rewrite rstrip_app.
  Qed.

Lemma strip_single (c : char) (v : str) :
    isspace c = false -> strip (c :: v) = c :: rstrip v.
  Proof.
    intros Hc. unfold strip. rewrite lstrip_head by assumption.
    change (c :: v) with ([] ++ c :: v). now rewrite rstrip_app.
  Qed.

Lemma split1_head_app (sep : char) (p rest : str) :
    ~ In sep p -> split1_head sep (p ++ rest) = p ++ split1_head sep rest.
  Proof.
    induction p as [|c p IH]; intros Hp; simpl; [reflexivity|].
    destruct (N.eqb_spec c sep) as [->|_].
    - exfalso; apply Hp; now left.
    - f_equal. apply IH. intros Hin; apply Hp; now right.
  Qed.

Lemma forallb_rev (A : Type) (f : A -> bool) (l : list A) :
    forallb f (rev l) = forallb f l.
  Proof.
    induction l as [|a l IH]; simpl; [reflexivity|].
    rewrite forallb_app, IH. simpl. rewrite andb_true_r. apply andb_comm.
  Qed.

Lemma lstrip_suffix (s : str) : exists ws, s = ws ++ lstrip s /\ forallb isspace ws = true.
  Proof.
    induction s as [|c s (ws & IH & Hws)]; simpl.
    - now exists [].
    - destruct (isspace c) eqn:Hc.
      + exists (c :: ws). simpl. rewrite Hc, Hws. split; [now f_equal|reflexivity].
      + now exists [].
  Qed.

End StrFacts.

(* ================================================================== *)
(** ** Facts about the pattern *)
(* ================================================================== *)

Section RegexFacts.

Lemma span_app (f : char -> bool) (s : str) :
    s = fst (span f s) ++ snd (span f s).
  Proof.
    induction s as [|c s IH]; simpl; [reflexivity|].
    destruct (f c); [|reflexivity].
    destruct (span f s) as [a b]; simpl in *. now f_equal.
  Qed.

Lemma span_fst (f : char -> bool) (s : str) :
    forallb f (fst (span f s)) = true.
  Proof.
    induction s as [|c s IH]; simpl; [reflexivity|].
    destruct (f c) eqn:Hc; [|reflexivity].
    destruct (span f s) as [a b]; simpl in *. now rewrite Hc.
  Qed.

Lemma span_cons (f : char -> bool) (c : char) (s : str) :
    f c = true -> span f (c :: s) = (c :: fst (span f s), snd (span f s)).
  Proof. intros H; simpl; rewrite H. now destruct (span f s). Qed.

Lemma span_all (f : char -> bool) (a b : str) :
    forallb f a = true -> (forall c r, b = c :: r -> f c = false) ->
    span f (a ++ b) = (a, b).
  Proof.
    intros Ha Hb. induction a as [|c a IH]; simpl in *.
    - destruct b as [|c r]; [reflexivity|]. simpl. now rewrite (Hb c r eq_refl).
    - apply andb_true_iff in Ha as [Hc Ha]. rewrite Hc, (IH Ha). reflexivity.
  Qed.

  (** Backtracking out of a greedy run never helps when what follows the run in
      the pattern cannot start with a character of the run's class: the only
      split that can succeed is the longest one. *)
Lemma greedy_span (A : Type) (k : cls) (cont : str -> option A) (s : str) :
    (forall c r, cls_mem k c = true -> cont (c :: r) = None) ->
    greedy k cont s = cont (snd (span (cls_mem k) s)).
  Proof.
    intros Hcont. induction s as [|c s IH]; simpl; [reflexivity|].
    destruct (cls_mem k c) eqn:Hc; [|reflexivity].
    rewrite IH. destruct (span (cls_mem k) s) as [a b]; simpl.
    destruct (cont b); [reflexivity|]. now apply Hcont.
  Qed.

Lemma firstn_span (f : char -> bool) (c : char) (s : str) :
    firstn (length (c :: s) - length (snd (span f s))) (c :: s)
    = c :: fst (span f s).
  Proof.
    pose proof (span_app f s) as H.
    destruct (span f s) as [a b]; simpl fst in *; simpl snd in *.
    subst s.
    replace (length (c :: a ++ b) - length b) with (length (c :: a))
      by (cbn [length]; rewrite length_app; lia).
    change (c :: a ++ b) with ((c :: a) ++ b).
    rewrite firstn_app, firstn_all, Nat.sub_diag. simpl. now rewrite app_nil_r.
  Qed.

  (** The backtracking matcher and the direct reading of the pattern agree on
      every input. *)
Lemma match_at_link_re (s : str) : match_at link_re s = link_at s.
  Proof.
    unfold match_at, link_re, link_at.
    destruct s as [|c s1]; [reflexivity|].
    cbn [exec cls_mem].
    destruct (N.eqb c (ch "[")); [|reflexivity].
    rewrite greedy_span.
    2:{ intros d r Hd. cbn [exec cls_mem] in *.
        apply negb_true_iff in Hd. now rewrite Hd. }
    destruct (snd (span (cls_mem (Except (ch "]"))) s1)) as [|c2 [|c3 s3]].
    - reflexivity.
    - cbn [exec cls_mem]. now destruct (N.eqb c2 (ch "]")).
    - cbn [exec cls_mem].
      destruct (N.eqb c2 (ch "]")); [|reflexivity].
      destruct (N.eqb c3 (ch "(")); [|reflexivity].
      cbn [andb].
      destruct s3 as [|c4 s4]; [reflexivity|].
      destruct (N.eqb c4 (ch ")")) eqn:H4.
      + cbn [negb span cls_mem]. rewrite H4. reflexivity.
      + cbn [negb]. rewrite greedy_span.
        2:{ intros d r Hd. cbn [exec cls_mem] in *.
            apply negb_true_iff in Hd. now rewrite Hd. }
        cbn [exec].
        rewrite (span_cons (cls_mem (Except (ch ")")))) by (cbn [cls_mem]; now rewrite H4).
        rewrite (firstn_span (cls_mem (Except (ch ")")))).
        destruct (snd (span (cls_mem (Except (ch ")"))) s4)) as [|c5 s5];
          reflexivity.
  Qed.

End RegexFacts.

Section ExtractionFacts.

Lemma forallb_except (x : char) (l : str) :
    forallb (cls_mem (Except x)) l = true <-> ~ In x l.
  Proof.
    induction l as [|c l IH]; simpl; [tauto|].
    rewrite andb_true_iff, IH, negb_true_iff, N.eqb_neq. intuition congruence.
  Qed.

  (** What a successful match looks like: an opening bracket, a label free of
      closing brackets, [](], a non-empty target free of closing parentheses,
      and the closing parenthesis. *)
Lemma link_at_inv (s g rest : str) :
    link_at s = Some (g, rest) ->
    exists label,
      s = ch "[" :: label ++ ch "]" :: ch "(" :: g ++ ch ")" :: rest
      /\ ~ In (ch "]") label /\ g <> [] /\ ~ In (ch ")") g.
  Proof.
    unfold link_at. destruct s as [|c s1]; [discriminate|].
    destruct (N.eqb_spec c (ch "[")) as [->|_]; [|discriminate].
    pose proof (span_app (cls_mem (Except (ch "]"))) s1) as Hs1.
    pose proof (span_fst (cls_mem (Except (ch "]"))) s1) as Hlabel.
    destruct (span (cls_mem (Except (ch "]"))) s1) as [label tl1].
    simpl fst in *; simpl snd in *.
    destruct tl1 as [|c2 [|c3 s3]]; try discriminate.
    destruct (N.eqb_spec c2 (ch "]")) as [->|_]; [|discriminate].
    destruct (N.eqb_spec c3 (ch "(")) as [->|_]; [|discriminate].
    cbn [andb].
    pose proof (span_app (cls_mem (Except (ch ")"))) s3) as Hs3.
    pose proof (span_fst (cls_mem (Except (ch ")"))) s3) as Htarget.
    destruct (span (cls_mem (Except (ch ")"))) s3) as [target tl3].
    simpl fst in *; simpl snd in *.
    destruct target as [|t0 target]; [discriminate|].
    destruct tl3 as [|c4 s5]; [discriminate|].
    destruct (N.eqb_spec c4 (ch ")")) as [->|_]; [|discriminate].
    intros H; injection H as <- <-.
    exists label. subst s1 s3.
    repeat split.
    - now apply forallb_except.
    - discriminate.
    - now apply forallb_except.
  Qed.

Lemma link_at_intro (label g rest : str) :
    ~ In (ch "]") label -> g <> [] -> ~ In (ch ")") g ->
    link_at (ch "[" :: label ++ ch "]" :: ch "(" :: g ++ ch ")" :: rest)
    = Some (g, rest).
  Proof.
    intros Hlabel Hg Hparen. unfold link_at.
    rewrite N.eqb_refl.
    rewrite span_all.
    - cbn [snd]. rewrite !N.eqb_refl. cbn [andb].
      rewrite span_all.
      + destruct g as [|t0 g]; [congruence|]. now rewrite N.eqb_refl.
      + now apply forallb_except.
      + intros c r [= <- _]. reflexivity.
    - now apply forallb_except.
    - intros c r [= <- _]. reflexivity.
  Qed.

  (** Passing over the characters of a match brings the scan to its end. *)
Lemma findall_from_skip (p : list atom) (a r : str) :
    findall_from p (length a) (a ++ r) = findall_from p 0 r.
  Proof.
    induction a as [|c a IH]; simpl; [|exact IH].
    destruct r; reflexivity.
  Qed.

  (** The scan, one attempt at a time. *)
Lemma findall_step (s : str) :
    findall link_re s =
    match link_at s with
    | Some (g, rest) => g :: findall link_re rest
    | None => match s with [] => [] | _ :: s' => findall link_re s' end
    end.
  Proof.
    unfold findall. destruct s as [|c s']; [reflexivity|].
    cbn [findall_from]. rewrite match_at_link_re.
    destruct (link_at (c :: s')) as [[g rest]|] eqn:Hm; [|reflexivity].
    f_equal.
    apply link_at_inv in Hm as (label & Hs & _).
    assert (Hs' : s' = (label ++ ch "]" :: ch "(" :: g ++ [ch ")"]) ++ rest).
    { injection Hs as _ ->. rewrite <- !app_assoc. simpl. now rewrite <- app_assoc. }
    rewrite Hs', length_app, Nat.add_sub. apply findall_from_skip.
  Qed.

(** Text without an opening bracket yields nothing and hides nothing. *)
Lemma findall_plain (pre s : str) :
  ~ In (ch "[") pre -> findall link_re (pre ++ s) = findall link_re s.
Proof.
  induction pre as [|c pre IH]; intros Hpre; [reflexivity|].
  cbn [app]. rewrite findall_step. unfold link_at at 1.
  destruct (N.eqb_spec c (ch "[")) as [->|_].
  - exfalso. apply Hpre. now left.
  - apply IH. intros Hin. apply Hpre. now right.
Qed.

Lemma findall_from_In (k : nat) (s g : str) :
    In g (findall_from link_re k s) ->
    exists s0 rest, link_at s0 = Some (g, rest).
  Proof.
    revert k. induction s as [|c s IH]; intros k Hin; simpl in Hin; [contradiction|].
    destruct k as [|k]; [|now apply (IH k)].
    rewrite match_at_link_re in Hin.
    destruct (link_at (c :: s)) as [[g' rest]|] eqn:Hm.
    - destruct Hin as [<-|Hin]; [now exists (c :: s), rest|].
      now apply (IH _ Hin).
    - now apply (IH _ Hin).
  Qed.

  (** Every extracted target is non-empty and holds no closing parenthesis. *)
Lemma findall_target (text g : str) :
    In g (findall link_re text) -> g <> [] /\ ~ In (ch ")") g.
  Proof.
    intros Hin. apply findall_from_In in Hin as (s0 & rest & Hm).
    apply link_at_inv in Hm as (_ & _ & _ & Hg & Hp). now split.
  Qed.

End ExtractionFacts.

(* ================================================================== *)
(** ** Facts about the two loops *)
(* ================================================================== *)

Section LoopFacts.

Variables (Path E : Type).
Variable path_str : Path -> str.
Variable parent : Path -> Path.
Variable joinpath : Path -> str -> Path.
Variable read_text : Path -> result E str.
Variable resolve : Path -> result E Path.
Variable path_exists : Path -> result E bool.

Local Notation check_link := (check_link parent joinpath resolve path_exists).
Local Notation scan_links := (scan_links parent joinpath resolve path_exists).
Local Notation scan_files :=
  (scan_files parent joinpath read_text resolve path_exists).
Local Notation reported := (reported parent joinpath resolve path_exists).
Local Notation doc_missing :=
  (doc_missing parent joinpath read_text resolve path_exists).
Local Notation all_missing :=
  (all_missing parent joinpath read_text resolve path_exists).
Local Notation main :=
  (main path_str parent joinpath read_text resolve path_exists).

(** The loop body decides as [classify] does, and looks up what is left. *)
Lemma check_link_classify (md : Path) (missing : list (Path * str)) (link : str) :
  check_link md missing link =
  match classify link with
  | None => Ok missing
  | Some link_path =>
      target <- resolve (joinpath (parent md) link_path) ;;
      found <- path_exists target ;;
      if found then Ok missing else Ok (missing ++ [(md, link)])
  end.
Proof.
  unfold Script.check_link, classify.
  destruct (startswith_any schemes link); [reflexivity|].
  destruct (startswith (lit "#") link); [reflexivity|].
  cbv zeta.
  destruct (negb (truthy (strip (split1_head (ch "#") link)))); [reflexivity|].
  destruct (startswith (lit "data:") (strip (split1_head (ch "#") link)));
    [reflexivity|].
  destruct (resolve _) as [target|e]; [|reflexivity]. cbn [bind].
  destruct (path_exists target) as [[|]|e]; reflexivity.
Qed.

(** When the body of the inner loop returns, it has added the link exactly
    when the link is [reported]. *)
Lemma check_link_ok (md : Path) (missing missing' : list (Path * str)) (link : str) :
  check_link md missing link = Ok missing' ->
  missing' = missing ++ (if reported md link then [(md, link)] else []).
Proof.
  rewrite check_link_classify. unfold Script.reported.
  destruct (classify link) as [link_path|].
  - destruct (resolve _) as [target|e]; simpl; [|discriminate].
    destruct (path_exists target) as [[|]|e]; simpl; try discriminate.
    + intros [= <-]. now rewrite app_nil_r.
    + now intros [= <-].
  - intros [= <-]. now rewrite app_nil_r.
Qed.

Lemma scan_links_ok (md : Path) (links : list str) (missing missing' : list (Path * str)) :
  scan_links md links missing = Ok missing' ->
  missing' = missing ++ map (pair md) (filter (reported md) links).
Proof.
  revert missing. induction links as [|link links IH]; intros missing H; simpl in H.
  - injection H as <-. simpl. now rewrite app_nil_r.
  - destruct (check_link md missing link) as [m1|e] eqn:H1; simpl in H; [|discriminate].
    apply check_link_ok in H1. apply IH in H. subst m1 missing'.
    rewrite <- app_assoc. f_equal. simpl.
    now destruct (reported md link).
Qed.

(** A scan that comes to its end has collected every missing link of every
    document, in the order of the documents and of the links in each. *)
Lemma scan_files_ok (md_files : list Path) (missing missing' : list (Path * str)) :
  scan_files md_files missing = Ok missing' ->
  missing' = missing ++ all_missing md_files.
Proof.
  revert missing. induction md_files as [|md rest IH]; intros missing H; simpl in H.
  - injection H as <-. simpl. now rewrite app_nil_r.
  - unfold Script.all_missing. simpl. unfold Script.doc_missing at 1.
    destruct (read_text md) as [text|e]; simpl in H; [|discriminate].
    destruct (scan_links md (findall link_re text) missing) as [m1|e] eqn:H1;
      simpl in H; [|discriminate].
    apply scan_links_ok in H1. apply IH in H. subst m1 missing'.
    now rewrite <- app_assoc.
Qed.





(** The output of the report loop. *)
Lemma fold_print (missing : list (Path * str)) (out : str) :
  fold_left (fun o entry => print o (report_line path_str entry)) missing out
  = out ++ concat (map (fun entry => report_line path_str entry ++ newline) missing).
Proof.
  revert out. induction missing as [|entry rest IH]; intros out;
    cbn [fold_left map concat].
  - now rewrite app_nil_r.
  - rewrite IH. unfold print. now rewrite <- !app_assoc.
Qed.

Lemma conclude_text (missing : list (Path * str)) :
  conclude E path_str missing =
  match missing with
  | [] => Exit (lit "All local markdown links resolve." ++ newline) 0
  | _ :: _ => Exit (report_text path_str missing) 1
  end.
Proof.
  destruct missing as [|entry rest]; [reflexivity|].
  unfold conclude, report_text. rewrite fold_print.
  unfold print. cbn [app]. now rewrite <- app_assoc.
Qed.

End LoopFacts.

(* ================================================================== *)
(** ** Facts about the classification *)
(* ================================================================== *)

Section ClassifyFacts.

Lemma rstrip_prefix (s : str) :
  exists ws, s = rstrip s ++ ws /\ forallb isspace ws = true.
Proof.
  unfold rstrip. destruct (lstrip_suffix (rev s)) as (ws & Hs & Hws).
  exists (rev ws). split.
  - apply (f_equal (@rev char)) in Hs.
    rewrite rev_involutive, rev_app_distr in Hs. exact Hs.
  - now rewrite forallb_rev.
Qed.

(** Stripping does not touch a leading text free of white space. *)
Lemma strip_nonspace_prefix (p x : str) :
  p <> [] -> (forall c, In c p -> isspace c = false) ->
  strip (p ++ x) = p ++ rstrip x.
Proof.
  intros Hp Hns. destruct p as [|c p0]; [congruence|].
  assert (Hc : isspace c = false) by (apply Hns; now left).
  destruct (exists_last (l:=c :: p0)) as (u & d & Hu); [discriminate|].
  destruct u as [|c' u].
  - simpl in Hu. injection Hu as -> ->. simpl. now apply strip_single.
  - simpl in Hu. injection Hu as <- ->. simpl.
    rewrite <- !app_assoc. simpl. apply strip_framed; [assumption|].
    apply Hns. right. apply in_or_app. right. now left.
Qed.

Lemma startswith_rstrip (p s : str) :
  (forall c, In c p -> isspace c = false) ->
  startswith p (rstrip s) = startswith p s.
Proof.
  intros Hns. destruct (rstrip_prefix s) as (ws & Hs & _).
  destruct (startswith p s) eqn:H.
  - apply startswith_inv in H as [r ->].
    destruct p as [|c p0]; [reflexivity|].
    destruct (exists_last (l:=c :: p0)) as (u & d & Hu); [discriminate|].
    rewrite Hu, <- app_assoc. simpl. rewrite rstrip_app.
    + change (u ++ d :: rstrip r) with (u ++ [d] ++ rstrip r).
      rewrite app_assoc. apply startswith_app.
    + apply Hns. rewrite Hu. apply in_or_app. right. now left.
  - destruct (startswith p (rstrip s)) eqn:H'; [|reflexivity].
    apply startswith_inv in H' as [r Hr].
    rewrite Hs, Hr, <- app_assoc, startswith_app in H. discriminate.
Qed.

Lemma startswith_split1_head (sep : char) (p s : str) :
  ~ In sep p -> startswith p (split1_head sep s) = startswith p s.
Proof.
  revert p. induction s as [|x s IH]; intros p Hp; [reflexivity|].
  simpl. destruct (N.eqb_spec x sep) as [->|Hx].
  - destruct p as [|q p]; [reflexivity|]. simpl.
    destruct (N.eqb_spec q sep) as [->|_]; [|reflexivity].
    exfalso. apply Hp. now left.
  - destruct p as [|q p]; [reflexivity|]. simpl.
    rewrite IH; [reflexivity|]. intros Hin. apply Hp. now right.
Qed.

Lemma isspace_lower (c : char) : isspace c = true -> lower c = c.
Proof.
  unfold lower. destruct ((65 <=? c) && (c <=? 90))%N eqn:Hup; [|reflexivity].
  apply andb_true_iff in Hup as [H1 H2].
  apply N.leb_le in H1, H2. unfold isspace.
  intros H. repeat (apply orb_true_iff in H as [H|H]);
    repeat match goal with
           | H : (_ && _)%bool = true |- _ => apply andb_true_iff in H as [? ?]
           | H : (_ <=? _)%N = true |- _ => apply N.leb_le in H
           | H : (_ =? _)%N = true |- _ => apply N.eqb_eq in H
           end; lia.
Qed.

(** The literal prefixes hold no white space and no [#]. *)
Lemma prefix_chars (p : str) (c : char) :
  In p (schemes ++ [lit "data:"]) -> In c p -> isspace c = false /\ c <> ch "#".
Proof.
  intros Hp Hc. simpl in Hp.
  repeat (destruct Hp as [<-|Hp]; [
    vm_compute in Hc;
    repeat (destruct Hc as [<-|Hc]; [split; [reflexivity|discriminate]|]);
    contradiction |]).
  contradiction.
Qed.

Lemma variant_length (v p : str) : case_variant v p -> length v = length p.
Proof. intros [<- _]. now rewrite length_map. Qed.

Lemma variant_chars (v p : str) (c : char) :
  In p (schemes ++ [lit "data:"]) -> case_variant v p -> In c v ->
  isspace c = false /\ c <> ch "#".
Proof.
  intros Hp [Hlow _] Hc.
  assert (Hin : In (lower c) p) by (rewrite <- Hlow; now apply in_map).
  destruct (prefix_chars _ Hp Hin) as [Hs Hh]. split.
  - destruct (isspace c) eqn:Hsp; [|reflexivity].
    rewrite (isspace_lower _ Hsp) in Hs. congruence.
  - intros ->. apply Hh. reflexivity.
Qed.

(** No literal prefix of the script starts a text that begins with a
    case-variant of one of them. *)
Lemma variant_not_prefixed (v p q rest : str) :
  In p (schemes ++ [lit "data:"]) -> In q skip_prefixes ->
  case_variant v p -> startswith q (v ++ rest) = false.
Proof.
  intros Hp Hq Hv.
  destruct (startswith q (v ++ rest)) eqn:H; [exfalso|reflexivity].
  pose proof (variant_length Hv) as Hlen.
  destruct Hv as [Hlow Hne].
  pose proof (startswith_map lower _ _ H) as Hm.
  rewrite map_app, Hlow in Hm.
  simpl in Hp, Hq.
  repeat (destruct Hp as [<-|Hp]; [
    repeat (destruct Hq as [<-|Hq]; [
      first [ vm_compute in Hm; discriminate
            | apply Hne; apply (startswith_same_length _ _ rest);
              [symmetry; exact Hlen | exact H] ] |]);
    contradiction |]).
  contradiction.
Qed.

(** The look-up path of a text that begins with a non-empty run free of white
    space and of [#]. *)
Lemma link_path_prefix (p rest : str) :
  p <> [] -> (forall c, In c p -> isspace c = false /\ c <> ch "#") ->
  strip (split1_head (ch "#") (p ++ rest))
  = p ++ rstrip (split1_head (ch "#") rest).
Proof.
  intros Hp Hc. rewrite split1_head_app.
  - apply strip_nonspace_prefix; [assumption|]. intros c Hin. now apply Hc.
  - intros Hin. now apply (Hc _ Hin).
Qed.

Lemma classify_none_iff (link : str) :
  classify link = None <->
  startswith_any schemes link = true
  \/ startswith (lit "#") link = true
  \/ strip (split1_head (ch "#") link) = []
  \/ startswith (lit "data:") (strip (split1_head (ch "#") link)) = true.
Proof.
  unfold classify.
  destruct (startswith_any schemes link); [intuition|].
  destruct (startswith (lit "#") link); [intuition|].
  destruct (strip (split1_head (ch "#") link)) as [|c lp] eqn:Hlp; cbn [truthy negb].
  - intuition.
  - destruct (startswith (lit "data:") (c :: lp)); [intuition|].
    split; [discriminate|]. intros [H|[H|[H|H]]]; discriminate.
Qed.

Lemma skip_prefix_classified (link : str) :
  startswith_any skip_prefixes link = true -> classify link = None.
Proof.
  intros H. apply classify_none_iff.
  unfold startswith_any, skip_prefixes in H.
  rewrite existsb_app in H. apply orb_true_iff in H as [H|H]; [now left|].
  cbn [existsb] in H. rewrite orb_false_r in H. apply orb_true_iff in H as [H|H].
  - right; left. exact H.
  - right; right; right.
    apply startswith_inv in H as [rest ->].
    rewrite link_path_prefix.
    + apply startswith_app.
    + discriminate.
    + intros c Hin. apply (prefix_chars (p := lit "data:")); [|assumption].
      simpl. tauto.
Qed.

End ClassifyFacts.

(* ================================================================== *)
(** ** Facts about the walk and about lines of output *)
(* ================================================================== *)

Section WalkFacts.









Lemma select_shift (a prefix : list str) (entries : list entry) :
  select (a ++ prefix) entries = map (app a) (select prefix entries).
Proof.
  unfold select. rewrite map_map. apply map_ext.
  intros e. now rewrite app_assoc.
Qed.

(** Walking below a longer prefix only lengthens the paths. *)
Lemma walk_shift (e : entry) :
  forall a prefix, walk (a ++ prefix) e = map (app a) (walk prefix e).
Proof.
  revert e. fix walk_shift 1. intros e a prefix.
  destruct e as [n|n children]; [reflexivity|].
  cbn [walk]. rewrite map_app, <- app_assoc, select_shift. f_equal.
  induction children as [|c children IHc]; [reflexivity|].
  cbn [flat_map]. rewrite map_app, IHc. f_equal. apply walk_shift.
Qed.

Lemma walk_dir (d : str) (children : list entry) :
  walk [] (Dir d children) = map (cons d) (rglob_md children).
Proof.
  cbn [walk app]. unfold rglob_md. rewrite map_app.
  change [d] with ([d] ++ []). rewrite select_shift. f_equal.
  induction children as [|c children IHc]; [reflexivity|].
  cbn [flat_map]. rewrite map_app, IHc. f_equal.
  apply (walk_shift c [d] []).
Qed.

End WalkFacts.

(* ================================================================== *)
(** ** The rule of the specification against the rule of the script *)
(* ================================================================== *)

Section RuleFacts.

Lemma lstrip_length (s : str) : length (lstrip s) <= length s.
Proof.
  induction s as [|c s IH]; simpl; [lia|].
  destruct (isspace c); simpl; lia.
Qed.

Lemma lstrip_fixed (c : char) (rest : str) :
  lstrip (c :: rest) = c :: rest -> isspace c = false.
Proof.
  simpl. destruct (isspace c); [|reflexivity].
  intros H. pose proof (lstrip_length rest) as Hlen.
  rewrite H in Hlen. simpl in Hlen. lia.
Qed.

Lemma literal_nonspace (p : str) :
  In p skip_prefixes -> forall c, In c p -> isspace c = false.
Proof.
  intros Hp c Hc. cbn in Hp.
  repeat (destruct Hp as [<-|Hp]; [
    vm_compute in Hc;
    repeat (destruct Hc as [<-|Hc]; [reflexivity|]); contradiction |]).
  contradiction.
Qed.

Lemma startswith_any_rstrip (s : str) :
  startswith_any schemes (rstrip s) = startswith_any schemes s.
Proof.
  unfold startswith_any, schemes. cbn [existsb].
  rewrite !startswith_rstrip; [reflexivity| | |];
    apply literal_nonspace; cbn; tauto.
Qed.

(** On a target without leading white space the rule of the specification
    and the tests of the script decide alike. *)
Lemma spec_skipped_agrees (link : str) :
  lstrip link = link ->
  (classify link = None <-> spec_skipped link = true).
Proof.
  intros Hfix. unfold spec_skipped, strip. rewrite Hfix.
  rewrite startswith_any_rstrip.
  rewrite (startswith_rstrip (lit "#"))
    by (apply literal_nonspace; cbn; tauto).
  rewrite (startswith_split1_head (ch "#") (lit "data:"))
    by (vm_compute; intuition discriminate).
  rewrite (startswith_rstrip (lit "data:"))
    by (apply literal_nonspace; cbn; tauto).
  rewrite classify_none_iff.
  destruct (startswith_any schemes link); [cbn; intuition|].
  destruct (startswith (lit "#") link) eqn:Hhash; [cbn; intuition|].
  cbn [orb].
  destruct link as [|c rest]; [cbn; intuition|].
  pose proof (lstrip_fixed Hfix) as Hc.
  assert (Hne : N.eqb c (ch "#") = false).
  { destruct (N.eqb_spec c (ch "#")) as [->|_]; [discriminate Hhash|reflexivity]. }
  (* the path portion of the specification is not empty *)
  assert (Hpp : truthy (split1_head (ch "#") (rstrip (c :: rest))) = true).
  { change (c :: rest) with ([] ++ c :: rest).
    rewrite rstrip_app by assumption. cbn [app split1_head]. now rewrite Hne. }
  rewrite Hpp. cbn [negb orb].
  (* the look-up path of the script is the path portion, right-stripped *)
  assert (Hlp : strip (split1_head (ch "#") (c :: rest))
                = c :: rstrip (split1_head (ch "#") rest)).
  { cbn [split1_head]. rewrite Hne. now apply strip_single. }
  assert (Hdata : startswith (lit "data:") (strip (split1_head (ch "#") (c :: rest)))
                  = startswith (lit "data:") (c :: rest)).
  { rewrite Hlp.
    replace (c :: rstrip (split1_head (ch "#") rest))
      with (rstrip (split1_head (ch "#") (c :: rest))).
    - rewrite (startswith_rstrip (lit "data:"))
        by (apply literal_nonspace; cbn; tauto).
      apply startswith_split1_head. vm_compute; intuition discriminate.
    - cbn [split1_head]. rewrite Hne.
      change (c :: split1_head (ch "#") rest)
        with ([] ++ c :: split1_head (ch "#") rest).
      now rewrite rstrip_app. }
  rewrite Hdata, Hlp.
  split.
  - intros [H|[H|[H|H]]]; try discriminate. exact H.
  - intros H. right; right; right. exact H.
Qed.

End RuleFacts.

(* ================================================================== *)
(** ** Properties of the script *)
(* ================================================================== *)

Section Properties.

Variables (Path E : Type).
Variable path_str : Path -> str.
Variable parent : Path -> Path.
Variable joinpath : Path -> str -> Path.
Variable read_text : Path -> result E str.
Variable resolve : Path -> result E Path.
Variable path_exists : Path -> result E bool.
Variable Path_eq_dec : forall a b : Path, {a = b} + {a <> b}.

Local Notation check_link := (check_link parent joinpath resolve path_exists).
Local Notation scan_files :=
  (scan_files parent joinpath read_text resolve path_exists).
Local Notation reported := (reported parent joinpath resolve path_exists).
Local Notation doc_missing :=
  (doc_missing parent joinpath read_text resolve path_exists).
Local Notation all_missing :=
  (all_missing parent joinpath read_text resolve path_exists).
Local Notation main :=
  (main path_str parent joinpath read_text resolve path_exists).

Local Notation entry_eq_dec := (entry_eq_dec Path_eq_dec).

Lemma count_pairs_same (md : Path) (link : str) (links : list str) :
  reported md link = true ->
  count_occ entry_eq_dec (map (pair md) (filter (reported md) links)) (md, link)
  = count_occ (list_eq_dec N.eq_dec) links link.
Proof.
  intros Hrep. induction links as [|l links IH]; [reflexivity|].
  cbn [filter]. destruct (list_eq_dec N.eq_dec l link) as [->|Hne].
  - rewrite Hrep. cbn [map]. rewrite !count_occ_cons_eq by reflexivity.
    now rewrite IH.
  - rewrite (count_occ_cons_neq _ links Hne).
    destruct (reported md l); [|exact IH].
    cbn [map]. rewrite count_occ_cons_neq by congruence. exact IH.
Qed.

Lemma count_pairs_other (md md' : Path) (link : str) (links : list str) :
  md' <> md ->
  count_occ entry_eq_dec (map (pair md') links) (md, link) = 0.
Proof.
  intros Hne. induction links as [|l links IH]; [reflexivity|].
  cbn [map]. rewrite count_occ_cons_neq by congruence. exact IH.
Qed.

(** C1: a run whose scan comes to its end exits with status 0 when the
    accumulated list of missing links is empty and with status 1 when it is
    not; that list holds exactly the links whose resolved target does not
    exist; and no run, finished or aborted, ends with another status. *)
Theorem exit_status_follows_report
        (md_files : list Path) (missing : list (Path * str)) :
  scan_files md_files [] = Ok missing ->
  missing = all_missing md_files
  /\ process_status (main md_files)
     = match missing with [] => 0%N | _ :: _ => 1%N end
  /\ (forall files,
        process_status (main files) = 0%N \/ process_status (main files) = 1%N).
Proof.
  intros Hscan. split; [|split].
  - now apply scan_files_ok in Hscan.
  - unfold Script.main. rewrite Hscan. now destruct missing.
  - intros files. unfold Script.main.
    destruct (scan_files files []) as [[|entry rest]|e]; simpl; auto.
Qed.

(** C3: a target that begins with [http://], [https://], [mailto:], [#] or
    [data:] is passed over: the loop body returns the report unchanged
    whatever the file system would answer (so it asks nothing), and no
    finished scan reports the target. *)
Theorem skipped_prefixes_never_checked
        (link : str) (md : Path) (md_files : list Path)
        (acc missing : list (Path * str)) :
  startswith_any skip_prefixes link = true ->
  scan_files md_files [] = Ok missing ->
  classify link = None
  /\ check_link md acc link = Ok acc
  /\ ~ In (md, link) missing.
Proof.
  intros Hprefix Hscan.
  pose proof (skip_prefix_classified _ Hprefix) as Hnone.
  split; [assumption|]. split.
  - rewrite check_link_classify. now rewrite Hnone.
  - apply scan_files_ok in Hscan. subst missing. simpl.
    unfold Script.all_missing. rewrite in_flat_map.
    intros (md' & _ & Hin). unfold Script.doc_missing in Hin.
    destruct (read_text md') as [text|e]; [|contradiction].
    apply in_map_iff in Hin as (l & [= -> ->] & Hl).
    apply filter_In in Hl as [_ Hrep].
    unfold Script.reported in Hrep. rewrite Hnone in Hrep. discriminate.
Qed.

(** C4: when the scan comes to its end, a link of a document that is looked
    up and found not to exist is in the report once for each of its
    occurrences in the document (and for each time the document is in the
    list of files, which is once for a discovered document). *)
Theorem missing_link_once_per_occurrence
        (md_files : list Path) (missing : list (Path * str))
        (md : Path) (text link : str) :
  scan_files md_files [] = Ok missing ->
  read_text md = Ok text ->
  reported md link = true ->
  count_occ entry_eq_dec missing (md, link)
  = count_occ Path_eq_dec md_files md
    * count_occ (list_eq_dec N.eq_dec) (findall link_re text) link.
Proof.
  intros Hscan Hread Hrep.
  apply scan_files_ok in Hscan. subst missing. cbn [app].
  unfold Script.all_missing.
  induction md_files as [|md0 rest IH]; [reflexivity|].
  cbn [flat_map]. rewrite count_occ_app, IH.
  destruct (Path_eq_dec md0 md) as [->|Hne].
  - rewrite count_occ_cons_eq by reflexivity.
    unfold Script.doc_missing at 1. rewrite Hread.
    rewrite count_pairs_same by assumption. lia.
  - rewrite (count_occ_cons_neq _ rest Hne).
    unfold Script.doc_missing at 1.
    destruct (read_text md0) as [text0|e]; [|reflexivity].
    now rewrite count_pairs_other.
Qed.



(** C8: no attempt of the pattern succeeds on [[label]()], the scan never
    yields an empty target, and so no report of a finished scan holds an
    entry with an empty target. *)
Theorem empty_target_never_extracted
        (label rest text : str) (md : Path) (md_files : list Path)
        (missing : list (Path * str)) :
  ~ In (ch "]") label ->
  scan_files md_files [] = Ok missing ->
  match_at link_re (ch "[" :: label ++ ch "]" :: ch "(" :: ch ")" :: rest) = None
  /\ findall link_re (ch "[" :: label ++ ch "]" :: ch "(" :: ch ")" :: rest)
     = findall link_re rest
  /\ ~ In [] (findall link_re text)
  /\ ~ In (md, []) missing.
Proof.
  intros Hlabel Hscan.
  assert (Hnone : forall l,
             ~ In (ch "]") l ->
             link_at (ch "[" :: l ++ ch "]" :: ch "(" :: ch ")" :: rest) = None).
  { intros l Hl. unfold link_at. rewrite N.eqb_refl.
    rewrite span_all.
    - reflexivity.
    - now apply forallb_except.
    - intros c r [= <- _]. reflexivity. }
  assert (Hempty : forall t, ~ In [] (findall link_re t)).
  { intros t Hin. now apply findall_target in Hin as [Hne _]. }
  split; [|split; [|split]].
  - rewrite match_at_link_re. now apply Hnone.
  - (* no attempt inside the label succeeds either: the scan moves on one
       character at a time until it is past the parentheses *)
    assert (Hskip : forall l,
               ~ In (ch "]") l ->
               findall link_re (l ++ ch "]" :: ch "(" :: ch ")" :: rest)
               = findall link_re rest).
    { induction l as [|c l IH]; intros Hl.
      - cbn [app]. now rewrite 3 findall_step.
      - cbn [app]. rewrite findall_step.
        assert (Hl' : ~ In (ch "]") l) by (intros Hin; apply Hl; now right).
        destruct (N.eqb_spec c (ch "[")) as [->|Hc].
        + rewrite (Hnone l Hl'). now apply IH.
        + unfold link_at at 1. apply N.eqb_neq in Hc. rewrite Hc. now apply IH. }
    rewrite findall_step, (Hnone label Hlabel). now apply Hskip.
  - apply Hempty.
  - apply scan_files_ok in Hscan. subst missing. cbn [app].
    unfold Script.all_missing. rewrite in_flat_map.
    intros (md' & _ & Hin). unfold Script.doc_missing in Hin.
    destruct (read_text md') as [t|e']; [|contradiction].
    apply in_map_iff in Hin as (l & [= -> ->] & Hl).
    apply filter_In in Hl as [Hl _]. now apply Hempty in Hl.
Qed.

(** C9: the pattern does not look at what precedes the opening bracket, so
    an image [![alt](target)] yields its target exactly as the link
    [[alt](target)] does; and when a document holds such an image after text
    without brackets, and the target is looked up and not found, the target
    is in the report of a finished scan. *)
Theorem image_links_checked
        (before alt target rest : str) (md : Path) (md_files : list Path)
        (missing : list (Path * str)) :
  ~ In (ch "[") before ->
  ~ In (ch "]") alt -> target <> [] -> ~ In (ch ")") target ->
  In md md_files ->
  read_text md
  = Ok (before ++ ch "!" :: ch "[" :: alt ++ ch "]" :: ch "(" :: target
               ++ ch ")" :: rest) ->
  reported md target = true ->
  scan_files md_files [] = Ok missing ->
  findall link_re
    (ch "!" :: ch "[" :: alt ++ ch "]" :: ch "(" :: target ++ ch ")" :: rest)
  = findall link_re
      (ch "[" :: alt ++ ch "]" :: ch "(" :: target ++ ch ")" :: rest)
  /\ findall link_re
       (before ++ ch "!" :: ch "[" :: alt ++ ch "]" :: ch "(" :: target
               ++ ch ")" :: rest)
     = target :: findall link_re rest
  /\ In (md, target) missing.
Proof.
  intros Hbefore Halt Hne Hparen Hin Hread Hrep Hscan.
  assert (Hlink : findall link_re
            (ch "[" :: alt ++ ch "]" :: ch "(" :: target ++ ch ")" :: rest)
          = target :: findall link_re rest).
  { rewrite findall_step. now rewrite link_at_intro. }
  assert (Himage : findall link_re
            (ch "!" :: ch "[" :: alt ++ ch "]" :: ch "(" :: target ++ ch ")" :: rest)
          = target :: findall link_re rest).
  { rewrite findall_step. exact Hlink. }
  assert (Htext : findall link_re
            (before ++ ch "!" :: ch "[" :: alt ++ ch "]" :: ch "(" :: target
                    ++ ch ")" :: rest)
          = target :: findall link_re rest).
  { rewrite findall_plain by assumption. exact Himage. }
  split; [now rewrite Himage, Hlink|]. split; [assumption|].
  apply scan_files_ok in Hscan. subst missing. cbn [app].
  unfold Script.all_missing. apply in_flat_map. exists md. split; [assumption|].
  unfold Script.doc_missing. rewrite Hread, Htext.
  cbn [filter]. rewrite Hrep. now left.
Qed.

(** C10: the prefix tests compare characters as they are.  A target that
    begins with a spelling of [http://], [https://], [mailto:] or [data:]
    that differs in the case of some letter is not passed over: it is
    classified with its look-up path, which begins with that spelling, and
    when the file system says the target is not there the loop body reports
    it. *)
Theorem prefix_match_is_case_sensitive
        (p variant rest : str) (md target : Path) (acc : list (Path * str)) :
  In p (schemes ++ [lit "data:"]) ->
  case_variant variant p ->
  resolve (joinpath (parent md)
             (variant ++ rstrip (split1_head (ch "#") rest))) = Ok target ->
  path_exists target = Ok false ->
  classify (variant ++ rest)
  = Some (variant ++ rstrip (split1_head (ch "#") rest))
  /\ check_link md acc (variant ++ rest) = Ok (acc ++ [(md, variant ++ rest)]).
Proof.
  intros Hp Hv Hres Hex.
  assert (Hcls : classify (variant ++ rest)
                 = Some (variant ++ rstrip (split1_head (ch "#") rest))).
  { unfold classify.
    assert (Hs : startswith_any schemes (variant ++ rest) = false).
    { unfold startswith_any, schemes. cbn [existsb].
      rewrite !(fun q Hq => @variant_not_prefixed variant p q rest Hp Hq Hv)
        by (cbn; auto 10).
      reflexivity. }
    rewrite Hs.
    rewrite (fun Hq => @variant_not_prefixed variant p (lit "#") rest Hp Hq Hv)
      by (cbn; auto 10).
    rewrite link_path_prefix.
    - pose proof (variant_length Hv) as Hlen.
      destruct variant as [|c v].
      + exfalso. cbn in Hp.
        repeat (destruct Hp as [<-|Hp]; [discriminate Hlen|]). contradiction.
      + cbn [app truthy negb].
        change (c :: v ++ rstrip (split1_head (ch "#") rest))
          with ((c :: v) ++ rstrip (split1_head (ch "#") rest)).
        rewrite (fun Hq => @variant_not_prefixed (c :: v) p (lit "data:") _ Hp Hq Hv)
          by (cbn; auto 10).
        reflexivity.
    - intros ->. pose proof (variant_length Hv) as Hlen. cbn in Hp.
      repeat (destruct Hp as [<-|Hp]; [discriminate Hlen|]). contradiction.
    - intros c Hc. exact (@variant_chars variant p c Hp Hv Hc). }
  split; [assumption|].
  rewrite check_link_classify, Hcls, Hres. cbn. now rewrite Hex.
Qed.

End Properties.

(* ================================================================== *)
(** ** Properties of the classification and of the walk *)
(* ================================================================== *)

(** What lines 13 to 21 decide, to set beside the rule of C2: the scheme and
    [#] tests read the target as extracted, before any trimming, and the path
    portion is the text before the first [#], trimmed afterwards.  A target
    is passed over exactly when the raw target starts with an external scheme
    or with [#], or the path portion is empty or starts with [data:]; for a
    target without leading white space this is the rule that trims first. *)
Theorem skip_rule_reads_raw_target (link : str) :
  (classify link = None <->
   startswith_any schemes link = true
   \/ startswith (lit "#") link = true
   \/ strip (split1_head (ch "#") link) = []
   \/ startswith (lit "data:") (strip (split1_head (ch "#") link)) = true)
  /\ (lstrip link = link -> (classify link = None <-> spec_skipped link = true)).
Proof.
  split; [apply classify_none_iff|apply spec_skipped_agrees].
Qed.

(** C2: the rule trims the target before it tests for a scheme, and the
    script does not.  On a target with a space before [http://] the rule
    skips, while the script misses the scheme on the untrimmed text, trims
    only the path portion (as it does before the tests of lines 18 and 20),
    looks the URL up as a path below the document, and reports it missing. *)
Lemma leading_space_scheme_is_looked_up :
  spec_skipped (lit " http://example.com/page") = true
  /\ classify (lit " http://example.com/page")
     = Some (lit "http://example.com/page")
  /\ Demo.scenario (lit "[x]( http://example.com/page)")
     = Exit (lit "Missing links:" ++ newline
             ++ lit "- docs/a.md:  http://example.com/page" ++ newline) 1.
Proof. repeat split; vm_compute; reflexivity. Qed.



(* ================================================================== *)
(** ** The properties on the concrete file system *)
(* ================================================================== *)


Lemma exit_status_follows_report_witness :
  Demo.scan Demo.docs_tree Demo.docs_contents = Ok Demo.docs_missing
  /\ process_status (Demo.run Demo.docs_tree Demo.docs_contents) = 1%N.
Proof.
  split; [vm_compute; reflexivity|].
  apply (@exit_status_follows_report
           Demo.Path Demo.error Demo.path_str Demo.parent Demo.joinpath
           (Demo.read_text Demo.docs_contents) Demo.resolve
           (Demo.path_exists Demo.docs_tree)
           (Demo.md_files Demo.docs_tree) Demo.docs_missing).
  vm_compute; reflexivity.
Defined.

Lemma skip_rule_reads_raw_target_witness :
  lstrip (lit "data:text/plain,hi") = lit "data:text/plain,hi"
  /\ (classify (lit "data:text/plain,hi") = None
      <-> spec_skipped (lit "data:text/plain,hi") = true).
Proof.
  split; [vm_compute; reflexivity|].
  apply (proj2 (skip_rule_reads_raw_target (lit "data:text/plain,hi"))).
  vm_compute; reflexivity.
Defined.

Lemma skipped_prefixes_never_checked_witness :
  startswith_any skip_prefixes (lit "https://example.com/gone") = true
  /\ scan_files Demo.parent Demo.joinpath
       (Demo.read_text Demo.external_contents)
       Demo.resolve_raises Demo.exists_raises
       (Demo.md_files Demo.docs_tree) [] = Ok []
  /\ check_link Demo.parent Demo.joinpath Demo.resolve_raises Demo.exists_raises
       Demo.a_md [] (lit "https://example.com/gone") = Ok [].
Proof.
  split; [vm_compute; reflexivity|].
  split; [vm_compute; reflexivity|].
  apply (@skipped_prefixes_never_checked
           Demo.Path Demo.error Demo.parent Demo.joinpath
           (Demo.read_text Demo.external_contents)
           Demo.resolve_raises Demo.exists_raises
           (lit "https://example.com/gone") Demo.a_md
           (Demo.md_files Demo.docs_tree) [] []);
    vm_compute; reflexivity.
Defined.

Lemma missing_link_once_per_occurrence_witness :
  Demo.scan Demo.docs_tree Demo.docs_contents = Ok Demo.docs_missing
  /\ count_occ (entry_eq_dec Demo.path_eq_dec) Demo.docs_missing
       (Demo.a_md, lit "missing.md") = 2.
Proof.
  split; [vm_compute; reflexivity|].
  apply (@missing_link_once_per_occurrence
           Demo.Path Demo.error Demo.parent Demo.joinpath
           (Demo.read_text Demo.docs_contents) Demo.resolve
           (Demo.path_exists Demo.docs_tree) Demo.path_eq_dec
           (Demo.md_files Demo.docs_tree) Demo.docs_missing Demo.a_md
           Demo.a_text
           (lit "missing.md"));
    vm_compute; reflexivity.
Defined.




Lemma empty_target_never_extracted_witness :
  ~ In (ch "]") (lit "e")
  /\ Demo.scan Demo.docs_tree Demo.docs_contents = Ok Demo.docs_missing
  /\ match_at link_re (lit "[e]() [z](missing.md)") = None
  /\ findall link_re (lit "[e]() [z](missing.md)")
     = findall link_re (lit " [z](missing.md)")
  /\ ~ In (Demo.a_md, []) Demo.docs_missing.
Proof.
  assert (Hlabel : ~ In (ch "]") (lit "e"))
    by (vm_compute; intuition discriminate).
  assert (Hdocs : Demo.scan Demo.docs_tree Demo.docs_contents
                  = Ok Demo.docs_missing) by (vm_compute; reflexivity).
  destruct (@empty_target_never_extracted
              Demo.Path Demo.error Demo.parent Demo.joinpath
              (Demo.read_text Demo.docs_contents) Demo.resolve
              (Demo.path_exists Demo.docs_tree)
              (lit "e") (lit " [z](missing.md)") (lit "[e]()")
              Demo.a_md (Demo.md_files Demo.docs_tree) Demo.docs_missing
              Hlabel Hdocs) as (Hm & Hf & _ & Hr).
  split; [exact Hlabel|]. split; [exact Hdocs|].
  split; [exact Hm|]. split; [exact Hf|exact Hr].
Defined.

Lemma image_links_checked_witness :
  Demo.scan Demo.docs_tree Demo.image_contents = Ok [(Demo.a_md, lit "logo.png")]
  /\ findall link_re (lit "![logo](logo.png) and text")
     = findall link_re (lit "[logo](logo.png) and text")
  /\ findall link_re (lit "Our logo: ![logo](logo.png) and text")
     = lit "logo.png" :: findall link_re (lit " and text")
  /\ In (Demo.a_md, lit "logo.png") [(Demo.a_md, lit "logo.png")].
Proof.
  assert (Hscan : Demo.scan Demo.docs_tree Demo.image_contents
                  = Ok [(Demo.a_md, lit "logo.png")]) by (vm_compute; reflexivity).
  split; [exact Hscan|].
  apply (@image_links_checked
           Demo.Path Demo.error Demo.parent Demo.joinpath
           (Demo.read_text Demo.image_contents) Demo.resolve
           (Demo.path_exists Demo.docs_tree)
           (lit "Our logo: ") (lit "logo") (lit "logo.png") (lit " and text")
           Demo.a_md (Demo.md_files Demo.docs_tree)
           [(Demo.a_md, lit "logo.png")]).
  - vm_compute; intuition discriminate.
  - vm_compute; intuition discriminate.
  - discriminate.
  - vm_compute; intuition discriminate.
  - right; left; reflexivity.
  - reflexivity.
  - vm_compute; reflexivity.
  - exact Hscan.
Defined.

Lemma prefix_match_is_case_sensitive_witness :
  In (lit "http://") (schemes ++ [lit "data:"])
  /\ case_variant (lit "HTTP://") (lit "http://")
  /\ classify (lit "HTTP://example.com/gone") = Some (lit "HTTP://example.com/gone")
  /\ check_link Demo.parent Demo.joinpath Demo.resolve
       (Demo.path_exists Demo.docs_tree) Demo.a_md []
       (lit "HTTP://example.com/gone")
     = Ok [(Demo.a_md, lit "HTTP://example.com/gone")].
Proof.
  assert (Hp : In (lit "http://") (schemes ++ [lit "data:"])) by (left; reflexivity).
  assert (Hv : case_variant (lit "HTTP://") (lit "http://"))
    by (split; [reflexivity|discriminate]).
  split; [exact Hp|]. split; [exact Hv|].
  apply (@prefix_match_is_case_sensitive
           Demo.Path Demo.error Demo.parent Demo.joinpath Demo.resolve
           (Demo.path_exists Demo.docs_tree)
           (lit "http://") (lit "HTTP://") (lit "example.com/gone")
           Demo.a_md (Demo.relpath [lit "docs"; lit "HTTP:"; lit "example.com"; lit "gone"]) []);
    try assumption; vm_compute; reflexivity.
Defined.

(* ================================================================== *)
(** ** The scenarios of the specification, run *)
(* ================================================================== *)

Example findall_inline_and_image :
  findall link_re (lit "see [a](x.md) and ![i](y.png), not [e]() nor [r][ref]")
  = [lit "x.md"; lit "y.png"].
Proof. vm_compute. reflexivity. Qed.

Example findall_spans_lines :
  findall link_re (lit "[a](x" ++ newline ++ lit "y) [b](z)")
  = [lit "x" ++ newline ++ lit "y"; lit "z"].
Proof. vm_compute. reflexivity. Qed.

Example scenario_A :
  Demo.scenario (lit "[x](./b.md)")
  = Exit (lit "All local markdown links resolve." ++ newline) 0.
Proof. vm_compute. reflexivity. Qed.

Example scenario_B :
  Demo.scenario (lit "[x](./missing.md)")
  = Exit (lit "Missing links:" ++ newline
          ++ lit "- docs/a.md: ./missing.md" ++ newline) 1.
Proof. vm_compute. reflexivity. Qed.

Example scenario_C :
  Demo.scenario (lit "[x](https://example.com/missing)")
  = Exit (lit "All local markdown links resolve." ++ newline) 0.
Proof. vm_compute. reflexivity. Qed.

Example scenario_D :
  Demo.scenario (lit "[x](./b.md#section)")
  = Exit (lit "All local markdown links resolve." ++ newline) 0.
Proof. vm_compute. reflexivity. Qed.

Example unreadable_document :
  Demo.run Demo.docs_tree Demo.broken_contents = Uncaught Demo.UnicodeDecodeError.
Proof. vm_compute. reflexivity. Qed.

(* ================================================================== *)
(** ** Further properties: the classification *)
(* ================================================================== *)

Section ClassifyMore.

Lemma lstrip_nil_iff (s : str) :
  lstrip s = [] <-> forallb isspace s = true.
Proof.
  induction s as [|c s IH]; simpl; [tauto|].
  destruct (isspace c); simpl; [assumption|]. split; discriminate.
Qed.

Lemma rstrip_nil_iff (s : str) :
  rstrip s = [] <-> forallb isspace s = true.
Proof.
  unfold rstrip. rewrite <- (forallb_rev isspace s), <- lstrip_nil_iff.
  split; intros H.
  - apply (f_equal (@rev char)) in H. now rewrite rev_involutive in H.
  - now rewrite H.
Qed.

(** [strip] is empty exactly on texts made of white space only. *)
Lemma strip_nil_iff (s : str) :
  strip s = [] <-> forallb isspace s = true.
Proof.
  unfold strip. rewrite rstrip_nil_iff.
  destruct (lstrip_suffix s) as (ws & Hs & Hws).
  rewrite Hs at 2. rewrite forallb_app, Hws. reflexivity.
Qed.

Lemma lstrip_spaces (ws x : str) :
  forallb isspace ws = true -> lstrip (ws ++ x) = lstrip x.
Proof.
  induction ws as [|c ws IH]; intros H; [reflexivity|].
  cbn in H. apply andb_true_iff in H as [Hc Hws].
  cbn. rewrite Hc. now apply IH.
Qed.

Lemma lstrip_idempotent (s : str) : lstrip (lstrip s) = lstrip s.
Proof.
  induction s as [|c s IH]; [reflexivity|].
  cbn. destruct (isspace c) eqn:Hc; [exact IH|]. cbn. now rewrite Hc.
Qed.

Lemma rstrip_idempotent (s : str) : rstrip (rstrip s) = rstrip s.
Proof.
  unfold rstrip. now rewrite rev_involutive, lstrip_idempotent.
Qed.

Lemma lstrip_rstrip_lstrip (s : str) :
  lstrip (rstrip (lstrip s)) = rstrip (lstrip s).
Proof.
  destruct (lstrip s) as [|c v] eqn:Hs; [reflexivity|].
  assert (Hc : isspace c = false).
  { destruct (isspace c) eqn:Hc; [|reflexivity].
    pose proof (lstrip_idempotent s) as Hi. rewrite Hs in Hi.
    cbn in Hi. rewrite Hc in Hi.
    pose proof (lstrip_length v) as Hlen. rewrite Hi in Hlen. cbn in Hlen. lia. }
  change (c :: v) with ([] ++ c :: v). rewrite rstrip_app by assumption.
  cbn. now rewrite Hc.
Qed.

Lemma In_lstrip (x : char) (s : str) : In x (lstrip s) -> In x s.
Proof.
  destruct (lstrip_suffix s) as (ws & Hs & _). intros H.
  rewrite Hs. apply in_or_app. now right.
Qed.

Lemma In_rstrip (x : char) (s : str) : In x (rstrip s) -> In x s.
Proof.
  destruct (rstrip_prefix s) as (ws & Hs & _). intros H.
  rewrite Hs. apply in_or_app. now left.
Qed.

Lemma split1_head_no_sep (sep : char) (s : str) : ~ In sep (split1_head sep s).
Proof.
  induction s as [|c s IH]; [intros []|].
  cbn. destruct (N.eqb_spec c sep) as [->|Hc]; [intros []|].
  intros [H|H]; [congruence|now apply IH].
Qed.

Lemma split1_head_whole (sep : char) (s : str) :
  ~ In sep s -> split1_head sep s = s.
Proof.
  intros H. rewrite <- (app_nil_r s) at 1.
  rewrite split1_head_app by assumption. cbn. apply app_nil_r.
Qed.

Lemma split1_head_cut (sep : char) (s : str) :
  exists rest, s = split1_head sep s ++ rest.
Proof.
  induction s as [|c s [rest IH]]; cbn.
  - now exists [].
  - destruct (N.eqb c sep); [now exists (c :: s)|].
    exists rest. cbn. now f_equal.
Qed.

(** A prefix without the separator reads the same before the separator as on
    the whole text. *)
Lemma startswith_before_sep (sep : char) (q p frag : str) :
  ~ In sep q -> startswith q (p ++ sep :: frag) = startswith q p.
Proof.
  revert p. induction q as [|a q IH]; intros p Hq; [reflexivity|].
  assert (Ha : a <> sep) by (intros ->; apply Hq; now left).
  assert (Hq' : ~ In sep q) by (intros H; apply Hq; now right).
  destruct p as [|c p]; cbn.
  - apply N.eqb_neq in Ha. now rewrite Ha.
  - now rewrite IH.
Qed.

(** X1: what follows the first [#] of a target plays no part in the
    decision: the target with its fragment is classified, looked up and
    found missing or not exactly as the target without it. *)
Theorem fragment_never_checked
        (Path E : Type) (parent : Path -> Path) (joinpath : Path -> str -> Path)
        (resolve : Path -> result E Path) (path_exists : Path -> result E bool)
        (md : Path) (p frag : str) :
  ~ In (ch "#") p ->
  classify (p ++ ch "#" :: frag) = classify p
  /\ reported parent joinpath resolve path_exists md (p ++ ch "#" :: frag)
     = reported parent joinpath resolve path_exists md p.
Proof.
  intros Hp.
  assert (Hcls : classify (p ++ ch "#" :: frag) = classify p).
  { destruct p as [|c p']; [reflexivity|].
    unfold classify, startswith_any, schemes. cbn [existsb].
    rewrite !startswith_before_sep by (vm_compute; intuition discriminate).
    assert (Hc : N.eqb (ch "#") c = false).
    { apply N.eqb_neq. intros Heq. apply Hp. now left. }
    assert (Hhash : forall tail, startswith (lit "#") (c :: tail) = false).
    { intros tail. change (lit "#") with [ch "#"]. cbn [startswith].
      now rewrite Hc. }
    change ((c :: p') ++ ch "#" :: frag) with (c :: p' ++ ch "#" :: frag).
    rewrite !Hhash.
    change (c :: p' ++ ch "#" :: frag) with ((c :: p') ++ ch "#" :: frag).
    rewrite split1_head_app by assumption.
    rewrite (split1_head_whole (ch "#") (c :: p')) by assumption.
    cbn [split1_head]. rewrite N.eqb_refl, app_nil_r. reflexivity. }
  split; [exact Hcls|]. unfold reported. now rewrite Hcls.
Qed.

(** X2: a target whose text before the first [#] is empty or white space
    only is passed over, with or without a fragment after it. *)
Theorem blank_target_skipped (link : str) :
  forallb isspace (split1_head (ch "#") link) = true -> classify link = None.
Proof.
  intros H. apply classify_none_iff. right; right; left.
  now apply strip_nil_iff.
Qed.

(** X3: whatever path the script looks up is a non-empty piece of the target
    as written, without [#], without white space at either end, and not
    starting with [data:]. *)
Theorem lookup_path_normal_form (link link_path : str) :
  classify link = Some link_path ->
  link_path <> []
  /\ ~ In (ch "#") link_path
  /\ lstrip link_path = link_path
  /\ rstrip link_path = link_path
  /\ startswith (lit "data:") link_path = false
  /\ exists before after, link = before ++ link_path ++ after.
Proof.
  unfold classify.
  destruct (startswith_any schemes link); [discriminate|].
  destruct (startswith (lit "#") link); [discriminate|].
  cbv zeta.
  destruct (strip (split1_head (ch "#") link)) as [|c lp] eqn:Hlp;
    cbn [truthy negb]; [discriminate|].
  destruct (startswith (lit "data:") (c :: lp)) eqn:Hdata; [discriminate|].
  intros [= <-]. rewrite <- Hlp.
  split; [rewrite Hlp; discriminate|].
  split.
  { intros Hin. unfold strip in Hin.
    apply In_rstrip, In_lstrip in Hin.
    now apply split1_head_no_sep in Hin. }
  split; [apply lstrip_rstrip_lstrip|].
  split; [apply rstrip_idempotent|].
  split; [now rewrite Hlp|].
  destruct (split1_head_cut (ch "#") link) as [rest Hrest].
  destruct (lstrip_suffix (split1_head (ch "#") link)) as (ws & Hws & _).
  destruct (rstrip_prefix (lstrip (split1_head (ch "#") link))) as (ws' & Hws' & _).
  exists ws, (ws' ++ rest). unfold strip.
  rewrite Hrest at 1. rewrite Hws at 1. rewrite Hws' at 1.
  now rewrite <- !app_assoc.
Qed.

(** X4: the [data:] test reads the trimmed path portion, so a [data:] target
    is passed over also when white space precedes it (unlike the scheme
    tests of line 13, which read the target as written). *)
Theorem data_after_white_space_skipped (ws rest : str) :
  forallb isspace ws = true ->
  classify (ws ++ lit "data:" ++ rest) = None.
Proof.
  intros Hws. apply classify_none_iff. right; right; right.
  assert (Hnohash : ~ In (ch "#") ws).
  { intros Hin. rewrite forallb_forall in Hws.
    specialize (Hws _ Hin). discriminate. }
  rewrite split1_head_app by assumption.
  unfold strip. rewrite lstrip_spaces by assumption.
  change (rstrip (lstrip (split1_head (ch "#") (lit "data:" ++ rest))))
    with (strip (split1_head (ch "#") (lit "data:" ++ rest))).
  rewrite link_path_prefix.
  - apply startswith_app.
  - discriminate.
  - intros c Hin. apply (prefix_chars (p := lit "data:")); [|assumption].
    cbn. auto 10.
Qed.

End ClassifyMore.

(* ================================================================== *)
(** ** Further properties: extraction *)
(* ================================================================== *)

Section ExtractionMore.

(** A bracketed text that no opening parenthesis follows yields nothing, also
    when it holds opening brackets of its own. *)
Lemma findall_unlinked (l tail : str) :
  ~ In (ch "]") l ->
  (forall c r, tail = c :: r -> c <> ch "(") ->
  findall link_re (l ++ ch "]" :: tail) = findall link_re tail.
Proof.
  intros Hl Htail. induction l as [|c l IH].
  - cbn [app]. now rewrite findall_step.
  - assert (Hl' : ~ In (ch "]") l) by (intros Hin; apply Hl; now right).
    cbn [app]. rewrite findall_step.
    assert (Hnone : link_at (c :: l ++ ch "]" :: tail) = None).
    { unfold link_at. destruct (N.eqb c (ch "[")); [|reflexivity].
      rewrite span_all.
      - cbn [snd]. destruct tail as [|c3 s3]; [reflexivity|].
        rewrite N.eqb_refl. cbn [andb].
        destruct (N.eqb_spec c3 (ch "(")) as [->|_]; [|reflexivity].
        now destruct (Htail _ _ eq_refl).
      - now apply forallb_except.
      - intros d r [= <- _]. reflexivity. }
    rewrite Hnone. now apply IH.
Qed.

(** X5: the target of a link is the text between [](] and the first closing
    parenthesis after it, whatever follows, and the scan goes on right after
    that parenthesis; so no extracted target holds a closing parenthesis. *)
Theorem target_ends_at_first_paren (label target rest text g : str) :
  ~ In (ch "]") label -> target <> [] -> ~ In (ch ")") target ->
  In g (findall link_re text) ->
  findall link_re
    (ch "[" :: label ++ ch "]" :: ch "(" :: target ++ ch ")" :: rest)
  = target :: findall link_re rest
  /\ ~ In (ch ")") g.
Proof.
  intros Hlabel Hne Hparen Hg. split.
  - rewrite findall_step. now rewrite link_at_intro.
  - now apply findall_target in Hg as [_ Hg].
Qed.

(** X6: a reference-style link [[label][ref]] is not extracted: unless an
    opening parenthesis follows it, the scan finds in the text exactly what it
    finds after it. *)
Theorem reference_style_link_not_extracted (label ref rest : str) :
  ~ In (ch "]") label -> ~ In (ch "]") ref ->
  (forall c r, rest = c :: r -> c <> ch "(") ->
  findall link_re
    (ch "[" :: label ++ ch "]" :: ch "[" :: ref ++ ch "]" :: rest)
  = findall link_re rest.
Proof.
  intros Hlabel Href Hrest.
  change (ch "[" :: label ++ ch "]" :: ch "[" :: ref ++ ch "]" :: rest)
    with ((ch "[" :: label) ++ ch "]" :: (ch "[" :: ref) ++ ch "]" :: rest).
  rewrite findall_unlinked.
  - apply findall_unlinked; [|assumption].
    intros [H|H]; [discriminate H|now apply Href].
  - intros [H|H]; [discriminate H|now apply Hlabel].
  - intros c r [= <- _]. discriminate.
Qed.

End ExtractionMore.

(* ================================================================== *)
(** ** Further properties: the run *)
(* ================================================================== *)

Section RunMore.

Variables (Path E : Type).
Variable path_str : Path -> str.
Variable parent : Path -> Path.
Variable joinpath : Path -> str -> Path.
Variable read_text : Path -> result E str.
Variable resolve : Path -> result E Path.
Variable path_exists : Path -> result E bool.

Local Notation check_link := (check_link parent joinpath resolve path_exists).
Local Notation scan_links := (scan_links parent joinpath resolve path_exists).
Local Notation scan_files :=
  (scan_files parent joinpath read_text resolve path_exists).
Local Notation reported := (reported parent joinpath resolve path_exists).
Local Notation doc_missing :=
  (doc_missing parent joinpath read_text resolve path_exists).
Local Notation all_missing :=
  (all_missing parent joinpath read_text resolve path_exists).
Local Notation main :=
  (main path_str parent joinpath read_text resolve path_exists).
Local Notation link_returns := (link_returns parent joinpath resolve path_exists).
Local Notation doc_returns :=
  (doc_returns parent joinpath read_text resolve path_exists).

(** Whether the loop body returns does not depend on the report so far. *)
Lemma check_link_returns (md : Path) (acc : list (Path * str)) (link : str) :
  (exists m, check_link md acc link = Ok m) <-> link_returns md link = true.
Proof.
  rewrite check_link_classify. unfold Returns.link_returns.
  destruct (classify link) as [lp|]; [|split; [reflexivity|now exists acc]].
  destruct (resolve _) as [t|e]; cbn [bind].
  - destruct (path_exists t) as [[|]|e]; cbn [bind].
    + split; [reflexivity|]. now eexists.
    + split; [reflexivity|]. now eexists.
    + split; [intros [m H]; discriminate|discriminate].
  - split; [intros [m H]; discriminate|discriminate].
Qed.

Lemma scan_links_finishes (md : Path) (links : list str) (acc : list (Path * str)) :
  (exists m, scan_links md links acc = Ok m)
  <-> forallb (link_returns md) links = true.
Proof.
  revert acc. induction links as [|link links IH]; intros acc; cbn.
  - split; [reflexivity|]. now exists acc.
  - rewrite andb_true_iff, <- (check_link_returns md acc link). split.
    + intros [m H].
      destruct (check_link md acc link) as [m1|e]; cbn in H; [|discriminate].
      split; [now exists m1|]. apply (IH m1). now exists m.
    + intros [[m1 H1] H2]. rewrite H1. cbn. now apply (IH m1).
Qed.

Lemma scan_files_finishes (md_files : list Path) (acc : list (Path * str)) :
  (exists m, scan_files md_files acc = Ok m)
  <-> forallb doc_returns md_files = true.
Proof.
  revert acc. induction md_files as [|md rest IH]; intros acc; cbn.
  - split; [reflexivity|]. now exists acc.
  - rewrite andb_true_iff. unfold Returns.doc_returns at 1.
    destruct (read_text md) as [text|e]; cbn.
    + rewrite <- (scan_links_finishes md (findall link_re text) acc). split.
      * intros [m H].
        destruct (scan_links md (findall link_re text) acc) as [m1|e];
          cbn in H; [|discriminate].
        split; [now exists m1|]. apply (IH m1). now exists m.
      * intros [[m1 H1] H2]. rewrite H1. cbn. now apply (IH m1).
    + split; [intros [m H]; discriminate|intros [H _]; discriminate].
Qed.

Lemma scan_files_result (md_files : list Path) :
  scan_files md_files [] =
  (if forallb doc_returns md_files then Ok (all_missing md_files)
   else scan_files md_files []).
Proof.
  destruct (forallb doc_returns md_files) eqn:H; [|reflexivity].
  apply (scan_files_finishes md_files []) in H as [m Hm].
  pose proof (scan_files_ok _ _ _ _ _ _ _ Hm) as Heq. cbn [app] in Heq.
  now subst m.
Qed.

Lemma reported_spec (md : Path) (link : str) :
  reported md link = true <->
  exists link_path target,
    classify link = Some link_path
    /\ resolve (joinpath (parent md) link_path) = Ok target
    /\ path_exists target = Ok false.
Proof.
  unfold Script.reported. split.
  - destruct (classify link) as [lp|]; [|discriminate].
    destruct (resolve _) as [t|e] eqn:Hres; [|discriminate].
    destruct (path_exists t) as [[|]|e] eqn:Hex; try discriminate.
    intros _. now exists lp, t.
  - intros (lp & t & -> & -> & ->). reflexivity.
Qed.

(** What [conclude] prints, written out. *)
Lemma conclude_output (missing : list (Path * str)) :
  conclude E path_str missing =
  match missing with
  | [] => Exit (lit "All local markdown links resolve." ++ newline) 0
  | _ :: _ =>
      Exit (lit "Missing links:" ++ newline
            ++ concat
                 (map (fun entry =>
                         lit "- " ++ path_str (fst entry) ++ lit ": "
                         ++ snd entry ++ newline)
                      missing))
           1
  end.
Proof.
  rewrite conclude_text. destruct missing as [|entry rest]; [reflexivity|].
  unfold report_text, report_line. do 4 f_equal.
  apply map_ext. intros en. now rewrite <- !app_assoc.
Qed.

(** X7: the run either finishes or ends with an uncaught exception, and
    which of the two is decided by the calls alone: it finishes, with the
    report of every missing link (the header and a line for each, or the
    confirmation line when there is none), exactly when every document can be
    read and the look-up of every local link returns; a single read or
    look-up that raises leaves the whole run without a report. *)
Theorem run_finishes_iff_calls_return (md_files : list Path) :
  (forallb doc_returns md_files = true ->
   main md_files = conclude E path_str (all_missing md_files)
   /\ main md_files
      = match all_missing md_files with
        | [] => Exit (lit "All local markdown links resolve." ++ newline) 0
        | _ :: _ =>
            Exit (lit "Missing links:" ++ newline
                  ++ concat
                       (map (fun entry =>
                               lit "- " ++ path_str (fst entry) ++ lit ": "
                               ++ snd entry ++ newline)
                            (all_missing md_files)))
                 1
        end)
  /\ (forallb doc_returns md_files = false ->
      exists e, main md_files = Uncaught e).
Proof.
  split; intros H; unfold Script.main.
  - rewrite scan_files_result, H. split; [reflexivity|apply conclude_output].
  - destruct (scan_files md_files []) as [m|e] eqn:Hscan; [|now exists e].
    assert (Hfin : forallb doc_returns md_files = true)
      by (apply (scan_files_finishes md_files []); now exists m).
    congruence.
Qed.

(** X8: the run ends with the confirmation line and status 0 exactly when
    every document can be read and every local link of every document is
    looked up and found to exist. *)
Theorem success_iff_all_local_links_exist (md_files : list Path) :
  main md_files = Exit (lit "All local markdown links resolve." ++ newline) 0
  <->
  (forall md, In md md_files ->
     exists text,
       read_text md = Ok text
       /\ forall link link_path,
            In link (findall link_re text) ->
            classify link = Some link_path ->
            exists target,
              resolve (joinpath (parent md) link_path) = Ok target
              /\ path_exists target = Ok true).
Proof.
  split.
  - intros Hmain. unfold Script.main in Hmain.
    destruct (scan_files md_files []) as [m|e] eqn:Hscan; [|discriminate].
    rewrite conclude_text in Hmain.
    destruct m as [|entry m];
      [|injection Hmain as _ Hstatus; discriminate Hstatus].
    clear Hmain.
    assert (Hret : forallb doc_returns md_files = true)
      by (apply (scan_files_finishes md_files []); eexists; exact Hscan).
    pose proof (scan_files_ok _ _ _ _ _ _ _ Hscan) as Hnone. cbn [app] in Hnone.
    intros md Hin. rewrite forallb_forall in Hret. specialize (Hret md Hin).
    unfold Returns.doc_returns in Hret.
    destruct (read_text md) as [text|e] eqn:Hread; [|discriminate].
    exists text. split; [reflexivity|]. intros link lp Hlink Hcls.
    rewrite forallb_forall in Hret. specialize (Hret link Hlink).
    unfold Returns.link_returns in Hret. rewrite Hcls in Hret.
    destruct (resolve (joinpath (parent md) lp)) as [t|e] eqn:Hres; [|discriminate].
    destruct (path_exists t) as [[|]|e] eqn:Hex; [now exists t| |discriminate].
    exfalso.
    assert (Hin' : In (md, link) (all_missing md_files)).
    { unfold Script.all_missing. apply in_flat_map. exists md.
      split; [assumption|]. unfold Script.doc_missing. rewrite Hread.
      apply in_map. apply filter_In. split; [assumption|].
      apply reported_spec. now exists lp, t. }
    now rewrite <- Hnone in Hin'.
  - intros Hall.
    assert (Hret : forallb doc_returns md_files = true).
    { apply forallb_forall. intros md Hin.
      destruct (Hall md Hin) as (text & Hread & Hlinks).
      unfold Returns.doc_returns. rewrite Hread.
      apply forallb_forall. intros link Hlink.
      unfold Returns.link_returns.
      destruct (classify link) as [lp|] eqn:Hcls; [|reflexivity].
      destruct (Hlinks link lp Hlink Hcls) as (t & -> & ->). reflexivity. }
    assert (Hnone : all_missing md_files = []).
    { destruct (all_missing md_files) as [|[md link] rest] eqn:Hm; [reflexivity|].
      exfalso.
      assert (Hin : In (md, link) (all_missing md_files))
        by (rewrite Hm; now left).
      unfold Script.all_missing in Hin. apply in_flat_map in Hin as (md' & Hmd & Hin).
      unfold Script.doc_missing in Hin.
      destruct (Hall md' Hmd) as (text & Hread & Hlinks). rewrite Hread in Hin.
      apply in_map_iff in Hin as (l & [= -> ->] & Hl).
      apply filter_In in Hl as [Hl Hrep].
      apply reported_spec in Hrep as (lp & t & Hcls & Hres & Hex).
      destruct (Hlinks link lp Hl Hcls) as (t' & Hres' & Hex'). congruence. }
    unfold Script.main. rewrite scan_files_result, Hret, Hnone. reflexivity.
Qed.

(** X9: the report of a finished scan holds a pair exactly when the document
    is one of the scanned files, the target is one of the links extracted from
    its text, and the target was looked up and found not to exist; a link that
    is passed over or whose target exists is never reported. *)
Theorem report_holds_exactly_missing_links
        (md_files : list Path) (missing : list (Path * str))
        (md : Path) (link : str) :
  scan_files md_files [] = Ok missing ->
  (In (md, link) missing <->
   In md md_files
   /\ exists text link_path target,
        read_text md = Ok text
        /\ In link (findall link_re text)
        /\ classify link = Some link_path
        /\ resolve (joinpath (parent md) link_path) = Ok target
        /\ path_exists target = Ok false).
Proof.
  intros Hscan. apply scan_files_ok in Hscan. cbn [app] in Hscan. subst missing.
  unfold Script.all_missing. rewrite in_flat_map. split.
  - intros (md' & Hmd & Hin). unfold Script.doc_missing in Hin.
    destruct (read_text md') as [text|e] eqn:Hread; [|contradiction].
    apply in_map_iff in Hin as (l & [= -> ->] & Hl).
    apply filter_In in Hl as [Hl Hrep].
    apply reported_spec in Hrep as (lp & t & Hcls & Hres & Hex).
    split; [assumption|]. now exists text, lp, t.
  - intros (Hmd & text & lp & t & Hread & Hl & Hcls & Hres & Hex).
    exists md. split; [assumption|].
    unfold Script.doc_missing. rewrite Hread. apply in_map.
    apply filter_In. split; [assumption|].
    apply reported_spec. now exists lp, t.
Qed.

(** X10: the order in which the documents are scanned matters to the order
    of the report only: scanning the same documents in another order finishes
    when the first scan does, reports the same pairs the same number of times,
    and ends with the same status. *)
Theorem document_order_only_reorders_report
        (md_files md_files' : list Path) (missing : list (Path * str)) :
  Permutation md_files md_files' ->
  scan_files md_files [] = Ok missing ->
  (exists missing',
     scan_files md_files' [] = Ok missing' /\ Permutation missing missing')
  /\ process_status (main md_files') = process_status (main md_files).
Proof.
  intros Hperm Hscan.
  assert (Hret : forallb doc_returns md_files = true)
    by (apply (scan_files_finishes md_files []); eexists; exact Hscan).
  assert (Hret' : forallb doc_returns md_files' = true).
  { apply forallb_forall. intros md Hin. rewrite forallb_forall in Hret.
    apply Hret. eapply Permutation_in; [apply Permutation_sym|]; eassumption. }
  pose proof (scan_files_ok _ _ _ _ _ _ _ Hscan) as Hm. cbn [app] in Hm.
  assert (Hp : Permutation (all_missing md_files) (all_missing md_files')).
  { unfold Script.all_missing. now apply Permutation_flat_map. }
  split.
  - exists (all_missing md_files'). split.
    + now rewrite scan_files_result, Hret'.
    + now subst missing.
  - unfold Script.main. rewrite Hscan.
    rewrite (scan_files_result md_files'), Hret'. subst missing.
    destruct (all_missing md_files) as [|a l].
    + apply Permutation_nil in Hp. now rewrite Hp.
    + destruct (all_missing md_files') as [|a' l']; [|reflexivity].
      apply Permutation_sym, Permutation_nil in Hp. discriminate.
Qed.

End RunMore.

(* ================================================================== *)
(** ** Further properties: discovery *)
(* ================================================================== *)

Section WalkMore.

Lemma rglob_md_In (root : list entry) (p : list str) :
  In p (rglob_md root) <->
  (exists e, In e root /\ fnmatch_md (entry_name e) = true /\ p = [entry_name e])
  \/ (exists d children tail,
        In (Dir d children) root /\ In tail (rglob_md children) /\ p = d :: tail).
Proof.
  unfold rglob_md at 1. rewrite in_app_iff.
  enough (Hsel : In p (select [] root) <->
                 exists e, In e root /\ fnmatch_md (entry_name e) = true
                           /\ p = [entry_name e]).
  enough (Hwalk : In p (flat_map (walk []) root) <->
                  exists d children tail,
                    In (Dir d children) root /\ In tail (rglob_md children)
                    /\ p = d :: tail).
  { rewrite Hsel, Hwalk. reflexivity. }
  - rewrite in_flat_map. split.
    + intros ([n|d children] & He & Hin); [contradiction|].
      rewrite walk_dir in Hin. apply in_map_iff in Hin as (tail & <- & Ht).
      now exists d, children, tail.
    + intros (d & children & tail & He & Ht & ->).
      exists (Dir d children). split; [assumption|].
      rewrite walk_dir. now apply in_map.
  - unfold select. rewrite in_map_iff. split.
    + intros (e & <- & He). apply filter_In in He as [He Hm]. now exists e.
    + intros (e & He & Hm & ->). exists e. split; [reflexivity|].
      apply filter_In. now split.
Qed.

Lemma select_NoDup (entries : list entry) :
  NoDup (map entry_name entries) -> NoDup (select [] entries).
Proof.
  unfold select. cbn [app].
  induction entries as [|e entries IH]; intros Hnd; [constructor|].
  cbn [map] in Hnd. apply NoDup_cons_iff in Hnd as [Hnotin Hnd].
  cbn [filter]. destruct (fnmatch_md (entry_name e)); [|now apply IH].
  cbn [map]. constructor; [|now apply IH].
  intros Hin. apply in_map_iff in Hin as (e' & [= Heq] & He').
  apply filter_In in He' as [He' _].
  apply Hnotin. rewrite <- Heq. now apply in_map.
Qed.

Lemma walks_NoDup (entries : list entry) :
  NoDup (map entry_name entries) ->
  (forall d children, In (Dir d children) entries -> NoDup (rglob_md children)) ->
  NoDup (flat_map (walk []) entries).
Proof.
  induction entries as [|e entries IH]; intros Hnd Hsub; [constructor|].
  cbn [map] in Hnd. apply NoDup_cons_iff in Hnd as [Hnotin Hnd].
  cbn [flat_map]. apply NoDup_app.
  - destruct e as [n|d children]; [constructor|].
    rewrite walk_dir. apply Finite.Injective_map_NoDup.
    + intros x y [= ->]. reflexivity.
    + apply (Hsub d children). now left.
  - apply IH; [assumption|]. intros d children Hin.
    apply (Hsub d children). now right.
  - intros p Hp Hp'. destruct e as [n|d children]; [contradiction|].
    rewrite walk_dir in Hp. apply in_map_iff in Hp as (tail & <- & _).
    apply in_flat_map in Hp' as ([n'|d' children'] & He' & Hin'); [contradiction|].
    rewrite walk_dir in Hin'. apply in_map_iff in Hin' as (tail' & [= -> _] & _).
    apply Hnotin. cbn [entry_name].
    change d with (entry_name (Dir d children')). now apply in_map.
Qed.

Lemma listing_NoDup (entries : list entry) :
  NoDup (map entry_name entries) ->
  (forall d children, In (Dir d children) entries -> NoDup (rglob_md children)) ->
  NoDup (rglob_md entries).
Proof.
  intros Hnd Hsub. unfold rglob_md. apply NoDup_app.
  - now apply select_NoDup.
  - now apply walks_NoDup.
  - intros p Hsel Hwalk.
    unfold select in Hsel. apply in_map_iff in Hsel as (e & <- & _).
    apply in_flat_map in Hwalk as ([n|d children] & _ & Hin); [contradiction|].
    rewrite walk_dir in Hin. apply in_map_iff in Hin as (tail & [= _ Htail] & Ht).
    subst tail. apply rglob_md_In in Ht as [(e' & _ & _ & H)|(d' & c' & t' & _ & _ & H)];
      discriminate H.
Qed.

Lemma children_NoDup (e : entry) :
  distinct_names e ->
  match e with
  | File _ => True
  | Dir _ children => NoDup (rglob_md children)
  end.
Proof.
  revert e. fix children_NoDup 1. intros e.
  destruct e as [n|n children]; [trivial|].
  cbn [distinct_names]. intros [Hnd Hall].
  apply listing_NoDup; [assumption|].
  clear Hnd. induction children as [|c children IHc]; [intros ? ? []|].
  destruct Hall as [Hc Hall]. intros d ch [Heq|Hin].
  - pose proof (children_NoDup c Hc) as Hrec. rewrite Heq in Hrec. exact Hrec.
  - now apply (IHc Hall d ch).
Qed.

(** X11: the enumeration is built directory by directory: a path is
    enumerated exactly when it is the name of a matching entry of the root
    listing, or the name of a sub-directory followed by a path enumerated for
    that sub-directory; so no enumerated path is empty. *)
Theorem enumeration_by_directory (root : list entry) (p : list str) :
  (In p (rglob_md root) <->
   (exists e,
      In e root /\ fnmatch_md (entry_name e) = true /\ p = [entry_name e])
   \/ (exists d children tail,
         In (Dir d children) root /\ In tail (rglob_md children)
         /\ p = d :: tail))
  /\ ~ In [] (rglob_md root).
Proof.
  split; [apply rglob_md_In|].
  intros H. apply rglob_md_In in H as [(e & _ & _ & H)|(d & c & t & _ & _ & H)];
    discriminate H.
Qed.

(** X12: when no directory of the tree lists a name twice, no document is
    enumerated twice, so the outer loop reads each document once. *)
Theorem each_document_enumerated_once (root : list entry) :
  distinct_listing root -> NoDup (rglob_md root).
Proof.
  intros [Hnd Hall]. apply listing_NoDup; [assumption|].
  intros d children Hin. rewrite Forall_forall in Hall.
  exact (children_NoDup (Dir d children) (Hall _ Hin)).
Qed.

End WalkMore.

(* ================================================================== *)
(** ** The further properties on concrete inputs *)
(* ================================================================== *)

Lemma fragment_never_checked_witness :
  ~ In (ch "#") (lit "./b.md")
  /\ classify (lit "./b.md#section") = classify (lit "./b.md")
  /\ reported Demo.parent Demo.joinpath Demo.resolve
       (Demo.path_exists Demo.docs_tree) Demo.a_md (lit "./b.md#section")
     = reported Demo.parent Demo.joinpath Demo.resolve
         (Demo.path_exists Demo.docs_tree) Demo.a_md (lit "./b.md").
Proof.
  assert (Hp : ~ In (ch "#") (lit "./b.md"))
    by (vm_compute; intuition discriminate).
  split; [exact Hp|].
  exact (@fragment_never_checked
           Demo.Path Demo.error Demo.parent Demo.joinpath Demo.resolve
           (Demo.path_exists Demo.docs_tree) Demo.a_md
           (lit "./b.md") (lit "section") Hp).
Defined.

Lemma blank_target_skipped_witness :
  forallb isspace (split1_head (ch "#") (lit "  #top")) = true
  /\ classify (lit "  #top") = None.
Proof.
  split; [reflexivity|].
  apply (blank_target_skipped (lit "  #top")). reflexivity.
Defined.

Lemma lookup_path_normal_form_witness :
  classify (lit " guide.md #intro") = Some (lit "guide.md")
  /\ ~ In (ch "#") (lit "guide.md")
  /\ rstrip (lit "guide.md") = lit "guide.md".
Proof.
  assert (Hcls : classify (lit " guide.md #intro") = Some (lit "guide.md"))
    by (vm_compute; reflexivity).
  destruct (lookup_path_normal_form (lit " guide.md #intro") Hcls)
    as (_ & Hhash & _ & Hr & _).
  split; [exact Hcls|]. split; [exact Hhash|exact Hr].
Defined.

Lemma data_after_white_space_skipped_witness :
  forallb isspace (lit "  ") = true
  /\ classify (lit "  data:text/plain,hi") = None.
Proof.
  split; [reflexivity|].
  apply (data_after_white_space_skipped (lit "  ") (lit "text/plain,hi")).
  reflexivity.
Defined.

Lemma target_ends_at_first_paren_witness :
  findall link_re (lit "[x](a(b).md) [y](z)")
  = lit "a(b" :: findall link_re (lit ".md) [y](z)")
  /\ ~ In (ch ")") (lit "z").
Proof.
  apply (@target_ends_at_first_paren
           (lit "x") (lit "a(b") (lit ".md) [y](z)") (lit "[y](z)") (lit "z")).
  - vm_compute; intuition discriminate.
  - discriminate.
  - vm_compute; intuition discriminate.
  - left; reflexivity.
Defined.

Lemma reference_style_link_not_extracted_witness :
  findall link_re (lit "[x][ref] and [y](z)") = findall link_re (lit " and [y](z)").
Proof.
  apply (@reference_style_link_not_extracted
           (lit "x") (lit "ref") (lit " and [y](z)")).
  - vm_compute; intuition discriminate.
  - vm_compute; intuition discriminate.
  - intros c r [= <- _]. discriminate.
Defined.

Lemma run_finishes_iff_calls_return_witness :
  forallb (doc_returns Demo.parent Demo.joinpath
             (Demo.read_text Demo.docs_contents) Demo.resolve
             (Demo.path_exists Demo.docs_tree))
          (Demo.md_files Demo.docs_tree) = true
  /\ Demo.run Demo.docs_tree Demo.docs_contents
     = conclude Demo.error Demo.path_str
         (all_missing Demo.parent Demo.joinpath
            (Demo.read_text Demo.docs_contents) Demo.resolve
            (Demo.path_exists Demo.docs_tree) (Demo.md_files Demo.docs_tree))
  /\ Demo.run Demo.docs_tree Demo.docs_contents
     = Exit (lit "Missing links:" ++ newline
             ++ lit "- docs/a.md: missing.md" ++ newline
             ++ lit "- docs/a.md: img.png" ++ newline
             ++ lit "- docs/a.md: missing.md" ++ newline) 1
  /\ forallb (doc_returns Demo.parent Demo.joinpath
                (Demo.read_text Demo.docs_contents)
                Demo.resolve_raises Demo.exists_raises)
             (Demo.md_files Demo.docs_tree) = false
  /\ exists e,
       main Demo.path_str Demo.parent Demo.joinpath
         (Demo.read_text Demo.docs_contents)
         Demo.resolve_raises Demo.exists_raises
         (Demo.md_files Demo.docs_tree) = Uncaught e.
Proof.
  assert (Hret : forallb (doc_returns Demo.parent Demo.joinpath
                            (Demo.read_text Demo.docs_contents) Demo.resolve
                            (Demo.path_exists Demo.docs_tree))
                         (Demo.md_files Demo.docs_tree) = true) by reflexivity.
  destruct (proj1 (@run_finishes_iff_calls_return
                     Demo.Path Demo.error Demo.path_str Demo.parent Demo.joinpath
                     (Demo.read_text Demo.docs_contents) Demo.resolve
                     (Demo.path_exists Demo.docs_tree)
                     (Demo.md_files Demo.docs_tree)) Hret) as [Hconclude Hout].
  split; [exact Hret|]. split; [exact Hconclude|]. split.
  - change (Demo.run Demo.docs_tree Demo.docs_contents)
      with (main Demo.path_str Demo.parent Demo.joinpath
              (Demo.read_text Demo.docs_contents) Demo.resolve
              (Demo.path_exists Demo.docs_tree) (Demo.md_files Demo.docs_tree)).
    rewrite Hout. vm_compute. reflexivity.
  - split; [reflexivity|].
    apply (proj2 (@run_finishes_iff_calls_return
                    Demo.Path Demo.error Demo.path_str Demo.parent Demo.joinpath
                    (Demo.read_text Demo.docs_contents)
                    Demo.resolve_raises Demo.exists_raises
                    (Demo.md_files Demo.docs_tree))).
    reflexivity.
Defined.

Lemma success_iff_all_local_links_exist_witness :
  Demo.run Demo.docs_tree Demo.clean_contents
  = Exit (lit "All local markdown links resolve." ++ newline) 0
  /\ exists text,
       Demo.read_text Demo.clean_contents Demo.b_md = Ok text
       /\ forall link link_path,
            In link (findall link_re text) ->
            classify link = Some link_path ->
            exists target,
              Demo.resolve (Demo.joinpath (Demo.parent Demo.b_md) link_path)
              = Ok target
              /\ Demo.path_exists Demo.docs_tree target = Ok true.
Proof.
  assert (Hrun : Demo.run Demo.docs_tree Demo.clean_contents
                 = Exit (lit "All local markdown links resolve." ++ newline) 0)
    by (vm_compute; reflexivity).
  split; [exact Hrun|].
  exact (proj1 (@success_iff_all_local_links_exist
                  Demo.Path Demo.error Demo.path_str Demo.parent Demo.joinpath
                  (Demo.read_text Demo.clean_contents) Demo.resolve
                  (Demo.path_exists Demo.docs_tree)
                  (Demo.md_files Demo.docs_tree))
               Hrun Demo.b_md (or_introl eq_refl)).
Defined.

Lemma report_holds_exactly_missing_links_witness :
  Demo.scan Demo.docs_tree Demo.docs_contents = Ok Demo.docs_missing
  /\ (In (Demo.a_md, lit "img.png") Demo.docs_missing <->
      In Demo.a_md (Demo.md_files Demo.docs_tree)
      /\ exists text link_path target,
           Demo.read_text Demo.docs_contents Demo.a_md = Ok text
           /\ In (lit "img.png") (findall link_re text)
           /\ classify (lit "img.png") = Some link_path
           /\ Demo.resolve (Demo.joinpath (Demo.parent Demo.a_md) link_path)
              = Ok target
           /\ Demo.path_exists Demo.docs_tree target = Ok false).
Proof.
  assert (Hscan : Demo.scan Demo.docs_tree Demo.docs_contents
                  = Ok Demo.docs_missing) by (vm_compute; reflexivity).
  split; [exact Hscan|].
  exact (@report_holds_exactly_missing_links
           Demo.Path Demo.error Demo.parent Demo.joinpath
           (Demo.read_text Demo.docs_contents) Demo.resolve
           (Demo.path_exists Demo.docs_tree)
           (Demo.md_files Demo.docs_tree) Demo.docs_missing
           Demo.a_md (lit "img.png") Hscan).
Defined.

Lemma document_order_only_reorders_report_witness :
  Permutation (Demo.md_files Demo.docs_tree) [Demo.a_md; Demo.b_md]
  /\ Demo.scan Demo.docs_tree Demo.docs_contents = Ok Demo.docs_missing
  /\ process_status
       (main Demo.path_str Demo.parent Demo.joinpath
          (Demo.read_text Demo.docs_contents) Demo.resolve
          (Demo.path_exists Demo.docs_tree) [Demo.a_md; Demo.b_md])
     = process_status (Demo.run Demo.docs_tree Demo.docs_contents).
Proof.
  assert (Hperm : Permutation (Demo.md_files Demo.docs_tree) [Demo.a_md; Demo.b_md])
    by apply perm_swap.
  assert (Hscan : Demo.scan Demo.docs_tree Demo.docs_contents
                  = Ok Demo.docs_missing) by (vm_compute; reflexivity).
  split; [exact Hperm|]. split; [exact Hscan|].
  exact (proj2 (@document_order_only_reorders_report
                  Demo.Path Demo.error Demo.path_str Demo.parent Demo.joinpath
                  (Demo.read_text Demo.docs_contents) Demo.resolve
                  (Demo.path_exists Demo.docs_tree)
                  (Demo.md_files Demo.docs_tree) [Demo.a_md; Demo.b_md]
                  Demo.docs_missing Hperm Hscan)).
Defined.

Lemma enumeration_by_directory_witness :
  In [lit "api"; lit "x.md"]
     (rglob_md [File (lit "a.md");
                Dir (lit "api") [File (lit "x.md"); File (lit "x.txt")]])
  /\ In [lit "docs"; lit "api"; lit "x.md"] (rglob_md nested_tree).
Proof.
  assert (Hsub : In [lit "api"; lit "x.md"]
                    (rglob_md [File (lit "a.md");
                               Dir (lit "api")
                                   [File (lit "x.md"); File (lit "x.txt")]]))
    by (right; left; reflexivity).
  split; [exact Hsub|].
  apply (proj1 (@enumeration_by_directory
                  nested_tree [lit "docs"; lit "api"; lit "x.md"])).
  right. eexists _, _, _. split; [left; reflexivity|].
  split; [exact Hsub|reflexivity].
Defined.

Lemma each_document_enumerated_once_witness :
  distinct_listing nested_tree /\ NoDup (rglob_md nested_tree).
Proof.
  assert (Hd : distinct_listing nested_tree).
  { split.
    - repeat constructor; vm_compute; intuition discriminate.
    - repeat constructor; vm_compute; intuition discriminate. }
  split; [exact Hd|]. exact (each_document_enumerated_once Hd).
Defined.
